(** * Telephony gateway: call registry, signaling relay, SIP coordinator

    A shallow embedding of the TypeScript classes of
    [apps/telephony-gateway/src/services], one module per class:

    - [CallManager]      call and session registry,
    - [DatabaseService]  the [calls] table,
    - [RedisService]     the cache,
    - [WebRTCHandler]    socket.io signaling relay,
    - [SIPService]       the sip.js session listener.

    Every [async] method is a computation in the monad [M]: it receives the
    world, returns a value or a thrown [Error], and the world as the method
    left it.  A throw keeps every mutation made before it, as in JavaScript.
    Objects held in a JS [Map] are references: where a method mutates an
    object it obtained from a map, the map entry is rewritten at the point of
    the mutation (see [CallManager.updateCallStatus]).

    What is abstracted:
    - [new Date()] / [Date.now()] read the next value of an oracle [clock]
      (milliseconds since the epoch); [uuidv4()] reads the next value of an
      oracle [uuids].
    - The Redis key space is split by key prefix: [redisCalls] holds the keys
      [call:<id>], [redisSessions] the keys [session:<id>]; the stored JSON
      text is represented by the record it encodes, together with the TTL it
      was written with.  Expiry of keys over time is not modelled.
    - Redis and PostgreSQL either serve a request or throw; which of the two
      is the environment's choice ([redisUp], [pgUp]).  Of the constraints of
      the [calls] table the primary key is modelled; a violation of any other
      (UUID syntax, the foreign key of [client_id]) counts as the store not
      serving the request.
    - [Logger] and [MetricsCollector] calls are left out: they return nothing
      and touch none of the state below.
    - A JS [Map] is a [gmap]; the iteration order of [Map.values()] is not
      modelled.
    - Each method is run to completion; interleaving of two methods at their
      [await] points is outside the model. *)

From stdpp Require Import gmap strings list fin_maps.
From Stdlib Require Import ZArith Lia.

Set Default Proof Using "Type".

(* ================================================================== *)
(** * Data model                                                        *)
(* ================================================================== *)

Inductive Direction := incoming | outgoing.
Inductive CallStatus :=
  initiated | ringing | answered | completed | failed | busy | no_answer.
Inductive Sentiment := positive | neutral | negative.

#[global] Instance Direction_eq_dec : EqDecision Direction.
Proof. solve_decision. Defined.
#[global] Instance CallStatus_eq_dec : EqDecision CallStatus.
Proof. solve_decision. Defined.
#[global] Instance Sentiment_eq_dec : EqDecision Sentiment.
Proof. solve_decision. Defined.

(** The four statuses the specification calls terminal. *)
Definition is_terminal (s : CallStatus) : bool :=
  match s with
  | completed | failed | busy | no_answer => true
  | initiated | ringing | answered => false
  end.

(** [interface Call].  Timestamps are milliseconds since the epoch,
    [confidenceScore] is counted in hundredths (the column is DECIMAL(3,2)). *)
Module Call.
Record t := mk {
  id : string;
  clientId : option string;
  phoneNumber : string;
  direction : Direction;
  status : CallStatus;
  duration : Z;
  recordingUrl : option string;
  transcript : option string;
  summary : option string;
  sentiment : option Sentiment;
  confidenceScore : option Z;
  createdAt : Z;
  updatedAt : Z
}.
End Call.

(** [Partial<Call>]: every property may be absent. *)
Module PartialCall.
Record t := mk {
  id : option string;
  clientId : option string;
  phoneNumber : option string;
  direction : option Direction;
  status : option CallStatus;
  duration : option Z;
  recordingUrl : option string;
  transcript : option string;
  summary : option string;
  sentiment : option Sentiment;
  confidenceScore : option Z;
  createdAt : option Z;
  updatedAt : option Z
}.

Definition empty : t :=
  mk None None None None None None None None None None None None None.
End PartialCall.

(** [interface CallSession]. *)
Module CallSession.
Record t := mk {
  callId : string;
  sessionId : string;
  userId : option string;
  startTime : Z;
  lastActivity : Z;
  isActive : bool
}.
End CallSession.

Inductive ConnectionStatus :=
  connecting | connected | disconnected | connection_failed.

(** [interface WebRTCConnection]. *)
Module WebRTCConnection.
Record t := mk {
  id : string;
  callId : string;
  socketId : string;
  userId : option string;
  status : ConnectionStatus;
  startTime : Z;
  endTime : option Z;
  duration : option Z;
  localSDP : option string;
  remoteSDP : option string;
  iceCandidates : list string
}.
End WebRTCConnection.

(** [interface SIPCall] of [SIPService], without the sip.js session object.
    Its status type has five of the seven call statuses. *)
Inductive SIPStatus :=
  sip_initiated | sip_ringing | sip_answered | sip_completed | sip_failed.

Module SIPCall.
Record t := mk {
  id : string;
  direction : Direction;
  from : string;
  to : string;
  status : SIPStatus;
  startTime : Z;
  endTime : option Z;
  duration : option Z
}.
End SIPCall.

(** [SessionState] of sip.js. *)
Inductive SessionState :=
  Initial | Establishing | Established | Terminating | Terminated.

(* ================================================================== *)
(** * Errors, effects and the world                                     *)
(* ================================================================== *)

Inductive Error :=
| ErrCallNotFound (callId : string)
    (* CallManager / WebRTCHandler: the call <callId> was not found *)
| ErrRowNotFound (callId : string)
    (* DatabaseService.updateCall: rowCount === 0 *)
| ErrConnectionNotFound
    (* WebRTCHandler.handleOffer / handleAnswer *)
| ErrRedis
| ErrPostgres.

(** The failures the specification files under [NotFound]. *)
Definition is_NotFound (e : Error) : bool :=
  match e with
  | ErrCallNotFound _ | ErrConnectionNotFound => true
  | ErrRowNotFound _ | ErrRedis | ErrPostgres => false
  end.

Inductive Result (A : Type) :=
| Ok (a : A)
| Throw (e : Error).
Arguments Ok {A} a.
Arguments Throw {A} e.

(** Argument of [EventEmitter.emit]. *)
Inductive Payload :=
| PCall (c : Call.t)
| PStatusUpdate (c : Call.t) (oldStatus newStatus : CallStatus)
| PSession (s : CallSession.t)
| PConnection (c : WebRTCConnection.t)
| PConnectionCall (c : WebRTCConnection.t) (call : Call.t)
| PConnectionData (c : WebRTCConnection.t) (data : string)
| PSipCall (s : SIPCall.t)
| PCallSipCall (call : Call.t) (s : SIPCall.t).

(** Body of a socket.io message sent to a client. *)
Inductive SocketMsg :=
| MsgJoined (callId connectionId : string)
| MsgSdp (callId sdp from : string)
| MsgCandidate (callId candidate from : string)
| MsgError (message : string).

(** The three classes that extend [EventEmitter]. *)
Inductive Emitter := OfCallManager | OfWebRTCHandler | OfSIPService.

(** What a method does to its collaborators, in the order it does it. *)
Inductive Effect :=
| RedisSet (key : string) (ttl : Z)
| RedisGet (key : string)
| RedisDel (key : string)
| PgInsert (id : string)
| PgSelect (id : string)
| PgUpdate (id : string) (updates : PartialCall.t)
| Emit (source : Emitter) (event : string) (p : Payload)
| SocketEmit (recipient : string) (event : string) (m : SocketMsg).

Record World := mkWorld {
  (* environment *)
  clock : nat → Z;
  ticks : nat;
  uuids : nat → string;
  uuidCount : nat;
  redisUp : bool;
  pgUp : bool;
  (* everything the services did, oldest first *)
  trace : list Effect;
  (* Redis *)
  redisCalls : gmap string (Call.t * Z);
  redisSessions : gmap string (CallSession.t * Z);
  (* PostgreSQL, table calls (id is its primary key) *)
  calls_table : gmap string Call.t;
  (* CallManager *)
  activeCalls : gmap string Call.t;
  activeSessions : gmap string CallSession.t;
  (* WebRTCHandler *)
  activeConnections : gmap string WebRTCConnection.t;
  socketToConnection : gmap string string;
  (* socket.io adapter: (room, socket id) *)
  rooms : gset (string * string);
  (* SIPService.activeCalls, keyed by the sip.js session id *)
  sip_activeCalls : gmap string SIPCall.t
}.

(** One update function per field the services write. *)

Definition set_ticks (f : nat → nat)
  (w : World) : World :=
  mkWorld
    (clock w) (f (ticks w)) (uuids w) (uuidCount w) (redisUp w) (pgUp w)
    (trace w) (redisCalls w) (redisSessions w) (calls_table w)
    (activeCalls w) (activeSessions w) (activeConnections w)
    (socketToConnection w) (rooms w) (sip_activeCalls w).

Definition set_uuidCount (f : nat → nat)
  (w : World) : World :=
  mkWorld
    (clock w) (ticks w) (uuids w) (f (uuidCount w)) (redisUp w) (pgUp w)
    (trace w) (redisCalls w) (redisSessions w) (calls_table w)
    (activeCalls w) (activeSessions w) (activeConnections w)
    (socketToConnection w) (rooms w) (sip_activeCalls w).

Definition set_trace (f : list Effect → list Effect)
  (w : World) : World :=
  mkWorld
    (clock w) (ticks w) (uuids w) (uuidCount w) (redisUp w) (pgUp w)
    (f (trace w)) (redisCalls w) (redisSessions w) (calls_table w)
    (activeCalls w) (activeSessions w) (activeConnections w)
    (socketToConnection w) (rooms w) (sip_activeCalls w).

Definition set_redisCalls
  (f : gmap string (Call.t * Z) →
       gmap string (Call.t * Z))
  (w : World) : World :=
  mkWorld
    (clock w) (ticks w) (uuids w) (uuidCount w) (redisUp w) (pgUp w)
    (trace w) (f (redisCalls w)) (redisSessions w) (calls_table w)
    (activeCalls w) (activeSessions w) (activeConnections w)
    (socketToConnection w) (rooms w) (sip_activeCalls w).

Definition set_redisSessions
  (f : gmap string (CallSession.t * Z) →
       gmap string (CallSession.t * Z))
  (w : World) : World :=
  mkWorld
    (clock w) (ticks w) (uuids w) (uuidCount w) (redisUp w) (pgUp w)
    (trace w) (redisCalls w) (f (redisSessions w)) (calls_table w)
    (activeCalls w) (activeSessions w) (activeConnections w)
    (socketToConnection w) (rooms w) (sip_activeCalls w).

Definition set_calls_table (f : gmap string Call.t → gmap string Call.t)
  (w : World) : World :=
  mkWorld
    (clock w) (ticks w) (uuids w) (uuidCount w) (redisUp w) (pgUp w)
    (trace w) (redisCalls w) (redisSessions w) (f (calls_table w))
    (activeCalls w) (activeSessions w) (activeConnections w)
    (socketToConnection w) (rooms w) (sip_activeCalls w).

Definition set_activeCalls (f : gmap string Call.t → gmap string Call.t)
  (w : World) : World :=
  mkWorld
    (clock w) (ticks w) (uuids w) (uuidCount w) (redisUp w) (pgUp w)
    (trace w) (redisCalls w) (redisSessions w) (calls_table w)
    (f (activeCalls w)) (activeSessions w) (activeConnections w)
    (socketToConnection w) (rooms w) (sip_activeCalls w).

Definition set_activeSessions
  (f : gmap string CallSession.t →
       gmap string CallSession.t)
  (w : World) : World :=
  mkWorld
    (clock w) (ticks w) (uuids w) (uuidCount w) (redisUp w) (pgUp w)
    (trace w) (redisCalls w) (redisSessions w) (calls_table w)
    (activeCalls w) (f (activeSessions w)) (activeConnections w)
    (socketToConnection w) (rooms w) (sip_activeCalls w).

Definition set_activeConnections
  (f : gmap string WebRTCConnection.t →
       gmap string WebRTCConnection.t)
  (w : World) : World :=
  mkWorld
    (clock w) (ticks w) (uuids w) (uuidCount w) (redisUp w) (pgUp w)
    (trace w) (redisCalls w) (redisSessions w) (calls_table w)
    (activeCalls w) (activeSessions w) (f (activeConnections w))
    (socketToConnection w) (rooms w) (sip_activeCalls w).

Definition set_socketToConnection
  (f : gmap string string →
       gmap string string)
  (w : World) : World :=
  mkWorld
    (clock w) (ticks w) (uuids w) (uuidCount w) (redisUp w) (pgUp w)
    (trace w) (redisCalls w) (redisSessions w) (calls_table w)
    (activeCalls w) (activeSessions w) (activeConnections w)
    (f (socketToConnection w)) (rooms w) (sip_activeCalls w).

Definition set_rooms (f : gset (string * string) → gset (string * string))
  (w : World) : World :=
  mkWorld
    (clock w) (ticks w) (uuids w) (uuidCount w) (redisUp w) (pgUp w)
    (trace w) (redisCalls w) (redisSessions w) (calls_table w)
    (activeCalls w) (activeSessions w) (activeConnections w)
    (socketToConnection w) (f (rooms w)) (sip_activeCalls w).

Definition set_sip_activeCalls
  (f : gmap string SIPCall.t →
       gmap string SIPCall.t)
  (w : World) : World :=
  mkWorld
    (clock w) (ticks w) (uuids w) (uuidCount w) (redisUp w) (pgUp w)
    (trace w) (redisCalls w) (redisSessions w) (calls_table w)
    (activeCalls w) (activeSessions w) (activeConnections w)
    (socketToConnection w) (rooms w) (f (sip_activeCalls w)).

(** A freshly started process: nothing stored anywhere. *)
Definition initial (clk : nat → Z) (ids : nat → string) : World :=
  mkWorld clk 0 ids 0 true true [] ∅ ∅ ∅ ∅ ∅ ∅ ∅ ∅ ∅.

(* ================================================================== *)
(** * The monad of service methods                                      *)
(* ================================================================== *)

Definition M (A : Type) : Type := World → Result A * World.

Definition ret {A} (a : A) : M A := λ w, (Ok a, w).
Definition throw {A} (e : Error) : M A := λ w, (Throw e, w).
Definition bind {A B} (m : M A) (k : A → M B) : M B :=
  λ w, match m w with
       | (Ok a, w') => k a w'
       | (Throw e, w') => (Throw e, w')
       end.
Definition modify (f : World → World) : M unit := λ w, (Ok tt, f w).
Definition gets {A} (f : World → A) : M A := λ w, (Ok (f w), w).

(** [try { m } catch (e) { h }]. *)
Definition try_catch {A} (m : M A) (h : Error → M A) : M A :=
  λ w, match m w with
       | (Ok a, w') => (Ok a, w')
       | (Throw e, w') => h e w'
       end.

(** A promise that is started and never awaited: its outcome is dropped,
    its effects stay.  The effects are placed where the promise is started;
    JavaScript runs the rest of the caller before the promise continues, so
    in the trace the caller's later entries would come first.  The parts of
    the world the two write are disjoint. *)
Definition fire_and_forget {A} (m : M A) : M unit :=
  λ w, (Ok tt, snd (m w)).

Declare Scope js_scope.
Delimit Scope js_scope with js.
Notation "x <- m ;; k" := (bind m (λ x, k))
  (at level 100, m at next level, right associativity) : js_scope.
Notation "m ;;; k" := (bind m (λ _, k))
  (at level 100, right associativity) : js_scope.
Open Scope js_scope.

Definition log (e : Effect) : M unit := modify (set_trace (λ t, t ++ [e])).
(** [new Date()], [Date.now()]. *)
Definition now : M Z := λ w, (Ok (clock w (ticks w)), set_ticks S w).
Definition uuidv4 : M string :=
  λ w, (Ok (uuids w (uuidCount w)), set_uuidCount S w).

(** The part of the trace added between two worlds. *)
Definition trace_since (w w' : World) : list Effect :=
  drop (length (trace w)) (trace w').

(* ================================================================== *)
(** * RedisService                                                      *)
(* ================================================================== *)

Module RedisService.

(** The client call inside [try { await this.client... } catch { throw }]. *)
Definition client {A} (served : M A) : M A :=
  λ w, if redisUp w then served w else (Throw ErrRedis, w).

(** [set(`call:${id}`, JSON.stringify(call), ttl)].  Every caller passes a
    TTL, so the write is the [setEx] branch. *)
Definition set_call (id : string) (call : Call.t) (ttlSeconds : Z) : M unit :=
  log (RedisSet ("call:" +:+ id) ttlSeconds) ;;;
  client (modify (set_redisCalls <[id := (call, ttlSeconds)]>)).

(** [get(`call:${id}`)], followed by the caller's [JSON.parse]. *)
Definition get_call (id : string) : M (option Call.t) :=
  log (RedisGet ("call:" +:+ id)) ;;;
  client (gets (λ w, fst <$> redisCalls w !! id)).

(** [del(`call:${id}`)]. *)
Definition del_call (id : string) : M unit :=
  log (RedisDel ("call:" +:+ id)) ;;;
  client (modify (set_redisCalls (delete id))).

(** [set(`session:${id}`, JSON.stringify(session), ttl)]. *)
Definition set_session (id : string) (s : CallSession.t) (ttlSeconds : Z)
  : M unit :=
  log (RedisSet ("session:" +:+ id) ttlSeconds) ;;;
  client (modify (set_redisSessions <[id := (s, ttlSeconds)]>)).

End RedisService.

(* ================================================================== *)
(** * DatabaseService                                                   *)
(* ================================================================== *)

Module DatabaseService.

(** [pool.connect()] and the statements that follow either run or throw. *)
Definition connect : M unit :=
  λ w, if pgUp w then (Ok tt, w) else (Throw ErrPostgres, w).

(** [s || null] on an optional string. *)
Definition or_null_string (o : option string) : option string :=
  match o with
  | Some s => if decide (s = "") then None else Some s
  | None => None
  end.

(** [n || null] on an optional number. *)
Definition or_null_number (o : option Z) : option Z :=
  match o with
  | Some n => if decide (n = 0%Z) then None else Some n
  | None => None
  end.

(** The [values] array of the INSERT, read back as the row it creates. *)
Definition row_of_call (call : Call.t) : Call.t :=
  {| Call.id := Call.id call;
     Call.clientId := or_null_string (Call.clientId call);
     Call.phoneNumber := Call.phoneNumber call;
     Call.direction := Call.direction call;
     Call.status := Call.status call;
     Call.duration := Call.duration call;
     Call.recordingUrl := or_null_string (Call.recordingUrl call);
     Call.transcript := or_null_string (Call.transcript call);
     Call.summary := or_null_string (Call.summary call);
     Call.sentiment := Call.sentiment call;
     Call.confidenceScore := or_null_number (Call.confidenceScore call);
     Call.createdAt := Call.createdAt call;
     Call.updatedAt := Call.updatedAt call |}.

(** [createCall]: INSERT INTO calls; a duplicate primary key is rejected. *)
Definition createCall (call : Call.t) : M unit :=
  log (PgInsert (Call.id call)) ;;;
  connect ;;;
  existing <- gets (λ w, calls_table w !! Call.id call) ;;
  match existing with
  | Some _ => throw ErrPostgres
  | None => modify (set_calls_table <[Call.id call := row_of_call call]>)
  end.

(** [getCall]: SELECT ... WHERE id = $1; [rows[0]] or [null]. *)
Definition getCall (callId : string) : M (option Call.t) :=
  log (PgSelect callId) ;;;
  connect ;;;
  gets (λ w, calls_table w !! callId).

(** The SET list [updateCall] builds: the seven updatable columns that are
    present in [updates], and always [updated_at].  On options,
    [new ∪ old] is [new] when it is present and [old] otherwise. *)
Definition apply_updates (updates : PartialCall.t) (stamp : Z)
  (row : Call.t) : Call.t :=
  {| Call.id := Call.id row;
     Call.clientId := Call.clientId row;
     Call.phoneNumber := Call.phoneNumber row;
     Call.direction := Call.direction row;
     Call.status := default (Call.status row) (PartialCall.status updates);
     Call.duration :=
       default (Call.duration row) (PartialCall.duration updates);
     Call.recordingUrl :=
       PartialCall.recordingUrl updates ∪ Call.recordingUrl row;
     Call.transcript :=
       PartialCall.transcript updates ∪ Call.transcript row;
     Call.summary :=
       PartialCall.summary updates ∪ Call.summary row;
     Call.sentiment :=
       PartialCall.sentiment updates ∪ Call.sentiment row;
     Call.confidenceScore :=
       PartialCall.confidenceScore updates ∪ Call.confidenceScore row;
     Call.createdAt := Call.createdAt row;
     Call.updatedAt := stamp |}.

(** [updateCall]: UPDATE calls SET ... WHERE id; throws when no row
    matched. *)
Definition updateCall (callId : string) (updates : PartialCall.t) : M unit :=
  log (PgUpdate callId updates) ;;;
  connect ;;;
  stamp <- now ;;
  row <- gets (λ w, calls_table w !! callId) ;;
  match row with
  | None => throw (ErrRowNotFound callId)
  | Some r =>
      modify (set_calls_table <[callId := apply_updates updates stamp r]>)
  end.

End DatabaseService.

(* ================================================================== *)
(** * CallManager                                                       *)
(* ================================================================== *)

Module CallManager.

(** The object literal of [createCall]:
    [{ id, phoneNumber, direction, status, duration, createdAt, updatedAt,
       ...callData }].  A property of [callData] overrides the default
    written before the spread.  [None] when [phoneNumber] or [direction]
    is undefined (the "!" of the source asserts they are not). *)
Definition build_call (uuid : string) (created updated : Z)
  (callData : PartialCall.t) : option Call.t :=
  match PartialCall.phoneNumber callData, PartialCall.direction callData with
  | Some phone, Some dir =>
      Some {| Call.id := default uuid (PartialCall.id callData);
              Call.clientId := PartialCall.clientId callData;
              Call.phoneNumber := phone;
              Call.direction := dir;
              Call.status :=
                default initiated (PartialCall.status callData);
              Call.duration := default 0%Z (PartialCall.duration callData);
              Call.recordingUrl := PartialCall.recordingUrl callData;
              Call.transcript := PartialCall.transcript callData;
              Call.summary := PartialCall.summary callData;
              Call.sentiment := PartialCall.sentiment callData;
              Call.confidenceScore := PartialCall.confidenceScore callData;
              Call.createdAt :=
                default created (PartialCall.createdAt callData);
              Call.updatedAt :=
                default updated (PartialCall.updatedAt callData) |}
  | _, _ => None
  end.

(** [createCall(callData)].  The two timestamps are two [new Date()]. *)
Definition createCall (callData : PartialCall.t) : M Call.t :=
  uuid <- uuidv4 ;;
  created <- now ;;
  updated <- now ;;
  match build_call uuid created updated callData with
  | None =>
      (* phone_number and direction are NOT NULL: the INSERT throws *)
      log (PgInsert (default uuid (PartialCall.id callData))) ;;;
      throw ErrPostgres
  | Some call =>
      DatabaseService.createCall call ;;;
      RedisService.set_call (Call.id call) call 3600 ;;;
      modify (set_activeCalls <[Call.id call := call]>) ;;;
      log (Emit OfCallManager "call:created" (PCall call)) ;;;
      ret call
  end.

(** [getCall(callId)]. *)
Definition getCall (callId : string) : M (option Call.t) :=
  hot <- gets (λ w, activeCalls w !! callId) ;;
  match hot with
  | Some call => ret (Some call)
  | None =>
      callData <- RedisService.get_call callId ;;
      match callData with
      | Some call =>
          modify (set_activeCalls <[callId := call]>) ;;;
          ret (Some call)
      | None =>
          stored <- DatabaseService.getCall callId ;;
          match stored with
          | Some call =>
              RedisService.set_call callId call 3600 ;;;
              modify (set_activeCalls <[callId := call]>) ;;;
              ret (Some call)
          | None => ret None
          end
      end
  end.

Definition with_status (s : CallStatus) (stamp : Z) (call : Call.t)
  : Call.t :=
  {| Call.id := Call.id call;
     Call.clientId := Call.clientId call;
     Call.phoneNumber := Call.phoneNumber call;
     Call.direction := Call.direction call;
     Call.status := s;
     Call.duration := Call.duration call;
     Call.recordingUrl := Call.recordingUrl call;
     Call.transcript := Call.transcript call;
     Call.summary := Call.summary call;
     Call.sentiment := Call.sentiment call;
     Call.confidenceScore := Call.confidenceScore call;
     Call.createdAt := Call.createdAt call;
     Call.updatedAt := stamp |}.

(** [{ status }], the argument [updateCallStatus] passes to the store. *)
Definition only_status (s : CallStatus) : PartialCall.t :=
  PartialCall.mk None None None None (Some s) None None None None None None
                 None None.

(** [updateCallStatus(callId, status)].  [call] is the object the hot set
    holds under [callId] once [getCall] has returned it, so the two
    assignments to it show in the hot set before the store is written. *)
Definition updateCallStatus (callId : string) (status : CallStatus)
  : M (option Call.t) :=
  found <- getCall callId ;;
  match found with
  | None => throw (ErrCallNotFound callId)
  | Some call =>
      let oldStatus := Call.status call in
      stamp <- now ;;
      let call := with_status status stamp call in
      modify (set_activeCalls <[callId := call]>) ;;;
      DatabaseService.updateCall callId (only_status status) ;;;
      RedisService.set_call callId call 3600 ;;;
      modify (set_activeCalls <[callId := call]>) ;;;
      log (Emit OfCallManager "call:statusUpdated"
                (PStatusUpdate call oldStatus status)) ;;;
      ret (Some call)
  end.

(** [Object.assign(call, endData)]. *)
Definition Object_assign (call : Call.t) (endData : PartialCall.t)
  : Call.t :=
  {| Call.id := default (Call.id call) (PartialCall.id endData);
     Call.clientId :=
       PartialCall.clientId endData ∪ Call.clientId call;
     Call.phoneNumber :=
       default (Call.phoneNumber call) (PartialCall.phoneNumber endData);
     Call.direction :=
       default (Call.direction call) (PartialCall.direction endData);
     Call.status := default (Call.status call) (PartialCall.status endData);
     Call.duration :=
       default (Call.duration call) (PartialCall.duration endData);
     Call.recordingUrl :=
       PartialCall.recordingUrl endData ∪ Call.recordingUrl call;
     Call.transcript :=
       PartialCall.transcript endData ∪ Call.transcript call;
     Call.summary :=
       PartialCall.summary endData ∪ Call.summary call;
     Call.sentiment :=
       PartialCall.sentiment endData ∪ Call.sentiment call;
     Call.confidenceScore :=
       PartialCall.confidenceScore endData ∪ Call.confidenceScore call;
     Call.createdAt :=
       default (Call.createdAt call) (PartialCall.createdAt endData);
     Call.updatedAt :=
       default (Call.updatedAt call) (PartialCall.updatedAt endData) |}.

(** [endCall(callId, endData)]. *)
Definition endCall (callId : string) (endData : PartialCall.t)
  : M (option Call.t) :=
  found <- getCall callId ;;
  match found with
  | None => throw (ErrCallNotFound callId)
  | Some call =>
      stamp <- now ;;
      let call := with_status completed stamp (Object_assign call endData) in
      modify (set_activeCalls <[callId := call]>) ;;;
      DatabaseService.updateCall callId endData ;;;
      RedisService.del_call callId ;;;
      modify (set_activeCalls (delete callId)) ;;;
      log (Emit OfCallManager "call:ended" (PCall call)) ;;;
      ret (Some call)
  end.

(** [createCallSession(callId, userId?)]. *)
Definition createCallSession (callId : string) (userId : option string)
  : M CallSession.t :=
  sessionId <- uuidv4 ;;
  startTime <- now ;;
  lastActivity <- now ;;
  let session :=
    {| CallSession.callId := callId;
       CallSession.sessionId := sessionId;
       CallSession.userId := userId;
       CallSession.startTime := startTime;
       CallSession.lastActivity := lastActivity;
       CallSession.isActive := true |} in
  RedisService.set_session sessionId session 3600 ;;;
  modify (set_activeSessions <[sessionId := session]>) ;;;
  log (Emit OfCallManager "session:created" (PSession session)) ;;;
  ret session.

(** [getActiveCalls()]: the values of the hot set. *)
Definition getActiveCalls (w : World) : list Call.t :=
  snd <$> map_to_list (activeCalls w).

(** [getActiveSessions()]. *)
Definition getActiveSessions (w : World) : list CallSession.t :=
  snd <$> map_to_list (activeSessions w).

End CallManager.

(* ================================================================== *)
(** * WebRTCHandler                                                     *)
(* ================================================================== *)

Module WebRTCHandler.

(** The socket.io room of a call: [`call-${callId}`]. *)
Definition room_of (callId : string) : string := "call-" +:+ callId.

(** [connection.id]: [`${callId}-${socket.id}`]. *)
Definition connection_id (callId socketId : string) : string :=
  callId +:+ "-" +:+ socketId.

(** The sockets [socket.to(room)] addresses: the members of [room] other
    than the sending socket. *)
Definition recipients (room sender : string) (w : World) : list string :=
  snd <$> filter (λ p, p.1 = room ∧ p.2 ≠ sender) (elements (rooms w)).

(** [socket.to(room).emit(event, msg)]. *)
Definition socket_to_emit (sender room event : string) (msg : SocketMsg)
  : M unit :=
  λ w, (Ok tt,
        set_trace
          (λ t, t ++ ((λ r, SocketEmit r event msg)
                        <$> recipients room sender w))
          w).

Definition with_connected (c : WebRTCConnection.t) : WebRTCConnection.t :=
  {| WebRTCConnection.id := WebRTCConnection.id c;
     WebRTCConnection.callId := WebRTCConnection.callId c;
     WebRTCConnection.socketId := WebRTCConnection.socketId c;
     WebRTCConnection.userId := WebRTCConnection.userId c;
     WebRTCConnection.status := connected;
     WebRTCConnection.startTime := WebRTCConnection.startTime c;
     WebRTCConnection.endTime := WebRTCConnection.endTime c;
     WebRTCConnection.duration := WebRTCConnection.duration c;
     WebRTCConnection.localSDP := WebRTCConnection.localSDP c;
     WebRTCConnection.remoteSDP := WebRTCConnection.remoteSDP c;
     WebRTCConnection.iceCandidates := WebRTCConnection.iceCandidates c |}.

Definition with_disconnected (ended : Z) (c : WebRTCConnection.t)
  : WebRTCConnection.t :=
  {| WebRTCConnection.id := WebRTCConnection.id c;
     WebRTCConnection.callId := WebRTCConnection.callId c;
     WebRTCConnection.socketId := WebRTCConnection.socketId c;
     WebRTCConnection.userId := WebRTCConnection.userId c;
     WebRTCConnection.status := disconnected;
     WebRTCConnection.startTime := WebRTCConnection.startTime c;
     WebRTCConnection.endTime := Some ended;
     WebRTCConnection.duration :=
       Some (ended - WebRTCConnection.startTime c)%Z;
     WebRTCConnection.localSDP := WebRTCConnection.localSDP c;
     WebRTCConnection.remoteSDP := WebRTCConnection.remoteSDP c;
     WebRTCConnection.iceCandidates := WebRTCConnection.iceCandidates c |}.

Definition with_localSDP (sdp : string) (c : WebRTCConnection.t)
  : WebRTCConnection.t :=
  {| WebRTCConnection.id := WebRTCConnection.id c;
     WebRTCConnection.callId := WebRTCConnection.callId c;
     WebRTCConnection.socketId := WebRTCConnection.socketId c;
     WebRTCConnection.userId := WebRTCConnection.userId c;
     WebRTCConnection.status := WebRTCConnection.status c;
     WebRTCConnection.startTime := WebRTCConnection.startTime c;
     WebRTCConnection.endTime := WebRTCConnection.endTime c;
     WebRTCConnection.duration := WebRTCConnection.duration c;
     WebRTCConnection.localSDP := Some sdp;
     WebRTCConnection.remoteSDP := WebRTCConnection.remoteSDP c;
     WebRTCConnection.iceCandidates := WebRTCConnection.iceCandidates c |}.

Definition with_remoteSDP (sdp : string) (c : WebRTCConnection.t)
  : WebRTCConnection.t :=
  {| WebRTCConnection.id := WebRTCConnection.id c;
     WebRTCConnection.callId := WebRTCConnection.callId c;
     WebRTCConnection.socketId := WebRTCConnection.socketId c;
     WebRTCConnection.userId := WebRTCConnection.userId c;
     WebRTCConnection.status := WebRTCConnection.status c;
     WebRTCConnection.startTime := WebRTCConnection.startTime c;
     WebRTCConnection.endTime := WebRTCConnection.endTime c;
     WebRTCConnection.duration := WebRTCConnection.duration c;
     WebRTCConnection.localSDP := WebRTCConnection.localSDP c;
     WebRTCConnection.remoteSDP := Some sdp;
     WebRTCConnection.iceCandidates := WebRTCConnection.iceCandidates c |}.

(** [connection.iceCandidates.push(candidate)]. *)
Definition push_candidate (candidate : string) (c : WebRTCConnection.t)
  : WebRTCConnection.t :=
  {| WebRTCConnection.id := WebRTCConnection.id c;
     WebRTCConnection.callId := WebRTCConnection.callId c;
     WebRTCConnection.socketId := WebRTCConnection.socketId c;
     WebRTCConnection.userId := WebRTCConnection.userId c;
     WebRTCConnection.status := WebRTCConnection.status c;
     WebRTCConnection.startTime := WebRTCConnection.startTime c;
     WebRTCConnection.endTime := WebRTCConnection.endTime c;
     WebRTCConnection.duration := WebRTCConnection.duration c;
     WebRTCConnection.localSDP := WebRTCConnection.localSDP c;
     WebRTCConnection.remoteSDP := WebRTCConnection.remoteSDP c;
     WebRTCConnection.iceCandidates :=
       WebRTCConnection.iceCandidates c ++ [candidate] |}.

(** [handleJoinCall(socket, callId, userId?)]. *)
Definition handleJoinCall (socketId callId : string)
  (userId : option string) : M unit :=
  _ <- now ;;
  try_catch
    (found <- CallManager.getCall callId ;;
     match found with
     | None => throw (ErrCallNotFound callId)
     | Some call =>
         started <- now ;;
         let connection :=
           {| WebRTCConnection.id := connection_id callId socketId;
              WebRTCConnection.callId := callId;
              WebRTCConnection.socketId := socketId;
              WebRTCConnection.userId := userId;
              WebRTCConnection.status := connecting;
              WebRTCConnection.startTime := started;
              WebRTCConnection.endTime := None;
              WebRTCConnection.duration := None;
              WebRTCConnection.localSDP := None;
              WebRTCConnection.remoteSDP := None;
              WebRTCConnection.iceCandidates := [] |} in
         let cid := WebRTCConnection.id connection in
         modify (set_activeConnections <[cid := connection]>) ;;;
         modify (set_socketToConnection <[socketId := cid]>) ;;;
         (* socket.join(`call-${callId}`) *)
         modify (set_rooms (λ r, {[ (room_of callId, socketId) ]} ∪ r)) ;;;
         let connection := with_connected connection in
         modify (set_activeConnections <[cid := connection]>) ;;;
         _ <- now ;;
         log (SocketEmit socketId "joined-call" (MsgJoined callId cid)) ;;;
         log (Emit OfWebRTCHandler "connection:joined"
                   (PConnectionCall connection call)) ;;;
         ret tt
     end)
    (λ e, _ <- now ;; throw e).

(** [handleLeaveCall(socket)].  The connection object is updated and then
    dropped from the map; only the emitted copy shows the update. *)
Definition handleLeaveCall (socketId : string) : M unit :=
  connectionId <- gets (λ w, socketToConnection w !! socketId) ;;
  match connectionId with
  | None => ret tt
  | Some cid =>
      connection <- gets (λ w, activeConnections w !! cid) ;;
      match connection with
      | None => ret tt
      | Some connection =>
          ended <- now ;;
          let left := with_disconnected ended connection in
          (* socket.leave(`call-${connection.callId}`) *)
          modify (set_rooms (λ r,
            r ∖ {[ (room_of (WebRTCConnection.callId connection),
                    socketId) ]})) ;;;
          modify (set_activeConnections (delete cid)) ;;;
          modify (set_socketToConnection (delete socketId)) ;;;
          log (Emit OfWebRTCHandler "connection:left" (PConnection left)) ;;;
          ret tt
      end
  end.

(** The connection a socket's message is attributed to, as [handleOffer]
    and [handleAnswer] look it up. *)
Definition lookup_connection (socketId : string)
  : M (option (string * WebRTCConnection.t)) :=
  connectionId <- gets (λ w, socketToConnection w !! socketId) ;;
  match connectionId with
  | None => ret None
  | Some cid =>
      connection <- gets (λ w, activeConnections w !! cid) ;;
      ret (pair cid <$> connection)
  end.

(** [handleOffer(socket, callId, sdp)]. *)
Definition handleOffer (socketId callId sdp : string) : M unit :=
  found <- lookup_connection socketId ;;
  match found with
  | None => throw ErrConnectionNotFound
  | Some (cid, connection) =>
      let connection := with_localSDP sdp connection in
      modify (set_activeConnections <[cid := connection]>) ;;;
      socket_to_emit socketId (room_of callId) "offer"
                     (MsgSdp callId sdp socketId) ;;;
      log (Emit OfWebRTCHandler "webrtc:offer"
                (PConnectionData connection sdp)) ;;;
      ret tt
  end.

(** [handleAnswer(socket, callId, sdp)]. *)
Definition handleAnswer (socketId callId sdp : string) : M unit :=
  found <- lookup_connection socketId ;;
  match found with
  | None => throw ErrConnectionNotFound
  | Some (cid, connection) =>
      let connection := with_remoteSDP sdp connection in
      modify (set_activeConnections <[cid := connection]>) ;;;
      socket_to_emit socketId (room_of callId) "answer"
                     (MsgSdp callId sdp socketId) ;;;
      log (Emit OfWebRTCHandler "webrtc:answer"
                (PConnectionData connection sdp)) ;;;
      ret tt
  end.

(** [handleIceCandidate(socket, callId, candidate)]: an unknown socket is
    ignored, nothing is thrown. *)
Definition handleIceCandidate (socketId callId candidate : string)
  : M unit :=
  found <- lookup_connection socketId ;;
  match found with
  | None => ret tt
  | Some (cid, connection) =>
      let connection := push_candidate candidate connection in
      modify (set_activeConnections <[cid := connection]>) ;;;
      socket_to_emit socketId (room_of callId) "ice-candidate"
                     (MsgCandidate callId candidate socketId) ;;;
      log (Emit OfWebRTCHandler "webrtc:ice-candidate"
                (PConnectionData connection candidate)) ;;;
      ret tt
  end.

(** [getConnectionsForCall(callId)]. *)
Definition getConnectionsForCall (callId : string) (w : World)
  : list WebRTCConnection.t :=
  filter (λ c, WebRTCConnection.callId c = callId)
         (snd <$> map_to_list (activeConnections w)).

(** The members of a call's broadcast group. *)
Definition in_group (callId socketId : string) (w : World) : Prop :=
  (room_of callId, socketId) ∈ rooms w.

End WebRTCHandler.

(* ================================================================== *)
(** * SIPService                                                        *)
(* ================================================================== *)

Module SIPService.

(** [uri?.toString() || 'unknown']. *)
Definition or_unknown (o : option string) : string :=
  match o with
  | Some s => if decide (s = "") then "unknown" else s
  | None => "unknown"
  end.

Definition with_status (s : SIPStatus) (c : SIPCall.t) : SIPCall.t :=
  {| SIPCall.id := SIPCall.id c;
     SIPCall.direction := SIPCall.direction c;
     SIPCall.from := SIPCall.from c;
     SIPCall.to := SIPCall.to c;
     SIPCall.status := s;
     SIPCall.startTime := SIPCall.startTime c;
     SIPCall.endTime := SIPCall.endTime c;
     SIPCall.duration := SIPCall.duration c |}.

(** The three assignments of the [Terminated] case. *)
Definition terminated_at (ended : Z) (c : SIPCall.t) : SIPCall.t :=
  {| SIPCall.id := SIPCall.id c;
     SIPCall.direction := SIPCall.direction c;
     SIPCall.from := SIPCall.from c;
     SIPCall.to := SIPCall.to c;
     SIPCall.status := sip_completed;
     SIPCall.startTime := SIPCall.startTime c;
     SIPCall.endTime := Some ended;
     SIPCall.duration := Some (ended - SIPCall.startTime c)%Z |}.

(** [{ phoneNumber, direction, status: 'initiated' }]. *)
Definition draft (phone : string) (dir : Direction) : PartialCall.t :=
  PartialCall.mk None None (Some phone) (Some dir) (Some initiated) None None
                 None None None None None None.

(** [{ duration: Math.floor(ms / 1000), status: 'completed' }].  The
    quotient of two integers below 2^53 floors as it does in [Z]. *)
Definition end_data (ms : Z) : PartialCall.t :=
  PartialCall.mk None None None None (Some completed) (Some (ms / 1000)%Z)
                 None None None None None None None.

(** The listener [setupSessionHandlers(session, callId)] adds to
    [session.stateChange].  The [CallManager] promises it starts are not
    awaited; their effects are placed where they are started. *)
Definition stateChange_listener (sessionId callId : string)
  (newState : SessionState) : M unit :=
  tracked <- gets (λ w, sip_activeCalls w !! sessionId) ;;
  match tracked with
  | None => ret tt
  | Some sipCall =>
      match newState with
      | Initial =>
          modify (set_sip_activeCalls
                    <[sessionId := with_status sip_initiated sipCall]>)
      | Establishing =>
          let sipCall := with_status sip_ringing sipCall in
          modify (set_sip_activeCalls <[sessionId := sipCall]>) ;;;
          fire_and_forget (CallManager.updateCallStatus callId ringing) ;;;
          log (Emit OfSIPService "call:ringing" (PSipCall sipCall))
      | Established =>
          let sipCall := with_status sip_answered sipCall in
          modify (set_sip_activeCalls <[sessionId := sipCall]>) ;;;
          fire_and_forget (CallManager.updateCallStatus callId answered) ;;;
          log (Emit OfSIPService "call:answered" (PSipCall sipCall))
      | Terminated =>
          ended <- now ;;
          let sipCall := terminated_at ended sipCall in
          modify (set_sip_activeCalls <[sessionId := sipCall]>) ;;;
          fire_and_forget
            (CallManager.endCall callId
               (end_data (ended - SIPCall.startTime sipCall))) ;;;
          modify (set_sip_activeCalls (delete sessionId)) ;;;
          log (Emit OfSIPService "call:ended" (PSipCall sipCall))
      | Terminating => ret tt
      end
  end.

(** [handleIncomingCall(invitation)]; returns the identifier the session
    listener is set up with, when the call was created. *)
Definition handleIncomingCall (sessionId : string)
  (remote local : option string) : M (option string) :=
  _ <- now ;;
  try_catch
    (let from := or_unknown remote in
     let to := or_unknown local in
     started <- now ;;
     let sipCall :=
       {| SIPCall.id := sessionId;
          SIPCall.direction := incoming;
          SIPCall.from := from;
          SIPCall.to := to;
          SIPCall.status := sip_initiated;
          SIPCall.startTime := started;
          SIPCall.endTime := None;
          SIPCall.duration := None |} in
     modify (set_sip_activeCalls <[sessionId := sipCall]>) ;;;
     call <- CallManager.createCall (draft from incoming) ;;
     _ <- now ;;
     log (Emit OfSIPService "call:incoming" (PCallSipCall call sipCall)) ;;;
     ret (Some (Call.id call)))
    (λ e, _ <- now ;; ret None).

End SIPService.

(* ================================================================== *)
(** * The request surface (routes/calls.ts, setupSocketHandlers)        *)
(* ================================================================== *)

(** What reaches [CallManager] and [WebRTCHandler] from outside: validated
    HTTP requests and socket.io events.  (The sip.js events are not part of
    it.) *)
Inductive Request :=
| HttpCreateCall (clientId : option string) (phoneNumber : string)
                 (direction : Direction)
| HttpGetCall (callId : string)
| HttpUpdateStatus (callId : string) (status : CallStatus)
| HttpEndCall (callId : string) (duration : Z)
| HttpCreateSession (callId : string) (userId : option string)
| SockJoinCall (socketId callId : string) (userId : option string)
| SockLeaveCall (socketId : string)
| SockOffer (socketId callId sdp : string)
| SockAnswer (socketId callId sdp : string)
| SockIceCandidate (socketId callId candidate : string).

(** A request body accepted by [schemas.createCall]. *)
Definition create_body (clientId : option string) (phoneNumber : string)
  (direction : Direction) : PartialCall.t :=
  PartialCall.mk None clientId (Some phoneNumber) (Some direction) None None
                 None None None None None None None.

(** A request body accepted by [schemas.endCall] with its one required
    property. *)
Definition end_body (duration : Z) : PartialCall.t :=
  PartialCall.mk None None None None None (Some duration) None None None None
                 None None None.

(** The wrapper [setupSocketHandlers] puts around a handler whose failure is
    reported to the client. *)
Definition reporting (socketId message : string) (m : M unit) : M unit :=
  try_catch m (λ _, log (SocketEmit socketId "error" (MsgError message))).

(** The wrapper around a handler whose failure is only logged. *)
Definition swallowing (m : M unit) : M unit :=
  try_catch m (λ _, ret tt).

Definition serve (r : Request) : M unit :=
  match r with
  | HttpCreateCall clientId phone dir =>
      CallManager.createCall (create_body clientId phone dir) ;;; ret tt
  | HttpGetCall callId => CallManager.getCall callId ;;; ret tt
  | HttpUpdateStatus callId status =>
      CallManager.updateCallStatus callId status ;;; ret tt
  | HttpEndCall callId duration =>
      CallManager.endCall callId (end_body duration) ;;; ret tt
  | HttpCreateSession callId userId =>
      CallManager.createCallSession callId userId ;;; ret tt
  | SockJoinCall socketId callId userId =>
      reporting socketId "Ошибка при подключении к звонку"
                (WebRTCHandler.handleJoinCall socketId callId userId)
  | SockLeaveCall socketId =>
      swallowing (WebRTCHandler.handleLeaveCall socketId)
  | SockOffer socketId callId sdp =>
      reporting socketId "Ошибка при обработке предложения"
                (WebRTCHandler.handleOffer socketId callId sdp)
  | SockAnswer socketId callId sdp =>
      reporting socketId "Ошибка при обработке ответа"
                (WebRTCHandler.handleAnswer socketId callId sdp)
  | SockIceCandidate socketId callId candidate =>
      swallowing (WebRTCHandler.handleIceCandidate socketId callId candidate)
  end.

(** The world after a request, whatever its outcome. *)
Definition after (r : Request) (w : World) : World := snd (serve r w).

Definition run (rs : list Request) (w : World) : World :=
  foldl (λ w r, after r w) w rs.

(** A world a run leads to: a fresh start followed by requests of the
    type above, with cache and store serving throughout.  Being [reachable]
    shows that a world is not an artificial one; the runs are not all the
    runs of the gateway (no request makes the cache or the store fail, and
    [Request] has the bodies named there only), so nothing is concluded
    from it about every state of the process. *)
Definition reachable (w : World) : Prop :=
  ∃ clk ids rs, w = run rs (initial clk ids).

(* ================================================================== *)
(** * Concrete worlds used by the examples                              *)
(* ================================================================== *)

(** A clock that advances one millisecond between two readings. *)
Definition ticking (n : nat) : Z := (1700000000000 + Z.of_nat n)%Z.

(** A clock frozen at one instant. *)
Definition frozen (n : nat) : Z := 1700000000000%Z.

Definition ids (n : nat) : string :=
  match n with
  | 0 => "c1"
  | 1 => "c2"
  | 2 => "c3"
  | _ => "c4"
  end.

Definition fresh_start : World := initial ticking ids.

Definition phone : string := "+79990000001".

(** One call created over HTTP: its identifier is ["c1"]. *)
Definition one_call : World :=
  run [HttpCreateCall None phone incoming] fresh_start.

(** Two calls, ["c1"] and ["c2"]. *)
Definition two_calls : World :=
  run [HttpCreateCall None phone incoming;
       HttpCreateCall None phone outgoing] fresh_start.

Definition ghost : string := "00000000-0000-4000-8000-000000000000".

(** ["c1"] after it was moved to [completed]. *)
Definition terminal_call : World :=
  run [HttpCreateCall None phone incoming; HttpUpdateStatus "c1" completed]
      fresh_start.

(** Socket ["s1"] has joined call ["c1"]. *)
Definition joined_once : World :=
  run [SockJoinCall "s1" "c1" None] two_calls.

(** Socket ["s1"] has joined ["c1"] and then ["c2"], without leaving. *)
Definition joined_twice : World :=
  run [SockJoinCall "s1" "c1" None; SockJoinCall "s1" "c2" None] two_calls.

(** Sockets ["s1"], ["s2"] and ["s3"]: the first two joined ["c1"], the third
    joined ["c2"]. *)
Definition three_sockets : World :=
  run [SockJoinCall "s1" "c1" None; SockJoinCall "s2" "c1" None;
       SockJoinCall "s3" "c2" None] two_calls.

(** ["c1"] is in the store only: the cache entry is gone and the process
    has restarted. *)
Definition store_only : World :=
  set_activeCalls (λ _, ∅) (set_redisCalls (λ _, ∅) one_call).

(** A clock whose eighth reading comes 42.5 seconds after the seventh. *)
Definition scenario_clock (n : nat) : Z :=
  if (n <? 7)%nat then ticking n else (ticking n + 42500)%Z.

(** An invitation with sip.js session id ["H1"] was received. *)
Definition invited : World :=
  snd (SIPService.handleIncomingCall "H1" (Some phone) (Some "sip:gateway")
         (initial scenario_clock ids)).

(** ... and its session reached [Established]. *)
Definition established : World :=
  snd (SIPService.stateChange_listener "H1" "c1" Established invited).

(** [{ duration: 5, status: 'failed' }]. *)
Definition failed_data : PartialCall.t :=
  PartialCall.mk None None None None (Some failed) (Some 5%Z) None None None
                 None None None None.

(* ================================================================== *)
(** * Vocabulary of the statements                                      *)
(* ================================================================== *)

(** The three tiers of [getCall] as one map: the hot set shadows the cache,
    the cache shadows the store. *)
Definition tiers (w : World) : gmap string Call.t :=
  activeCalls w ∪ (fst <$> redisCalls w) ∪ calls_table w.

(** Hot set, cache and store of calls are what they were. *)
Definition same_stores (w w' : World) : Prop :=
  activeCalls w' = activeCalls w ∧
  redisCalls w' = redisCalls w ∧
  calls_table w' = calls_table w.

Definition is_cache_write (e : Effect) : bool :=
  match e with
  | RedisSet _ _ => true
  | _ => false
  end.

Definition cache_writes (l : list Effect) : list Effect :=
  List.filter is_cache_write l.

(** A draft that has the two required properties and leaves to [createCall]
    what [createCall] assigns.  Every body accepted by [schemas.createCall]
    is one, and so is the draft the SIP service passes
    ([SIPService.draft]). *)
Definition valid_draft (d : PartialCall.t) : Prop :=
  is_Some (PartialCall.phoneNumber d) ∧
  is_Some (PartialCall.direction d) ∧
  PartialCall.id d = None ∧
  (PartialCall.status d = None ∨ PartialCall.status d = Some initiated) ∧
  PartialCall.duration d = None ∧
  PartialCall.createdAt d = None ∧
  PartialCall.updatedAt d = None.

(** The connection a socket is mapped to, with its key in
    [activeConnections]; [None] when either lookup fails. *)
Definition connection_of (socketId : string) (w : World)
  : option (string * WebRTCConnection.t) :=
  match socketToConnection w !! socketId with
  | Some cid => pair cid <$> activeConnections w !! cid
  | None => None
  end.

(** The world a relay handler leaves behind: the connection rewritten, one
    message per recipient, one notification. *)
Definition relayed (cid : string) (connection : WebRTCConnection.t)
  (sender room event : string) (msg : SocketMsg) (notification : Effect)
  (w : World) : World :=
  set_trace
    (λ t, t ++ ((λ r, SocketEmit r event msg)
                  <$> WebRTCHandler.recipients room sender w)
            ++ [notification])
    (set_activeConnections <[cid := connection]> w).

(* ================================================================== *)
(** * CallManager: the session methods and the shutdown                 *)
(* ================================================================== *)

(** The remaining methods of class [CallManager].  A module cannot be
    reopened, so they have a module of their own. *)
Module CallSessions.

(** [redisService.get(`session:${id}`)], followed by [JSON.parse]. *)
Definition redis_get (id : string) : M (option CallSession.t) :=
  log (RedisGet ("session:" +:+ id)) ;;;
  RedisService.client (gets (λ w, fst <$> redisSessions w !! id)).

(** [redisService.del(`session:${id}`)]. *)
Definition redis_del (id : string) : M unit :=
  log (RedisDel ("session:" +:+ id)) ;;;
  RedisService.client (modify (set_redisSessions (delete id))).

(** [getCallSession(sessionId)]: hot set, then cache; there is no store
    behind the sessions. *)
Definition getCallSession (sessionId : string) : M (option CallSession.t) :=
  hot <- gets (λ w, activeSessions w !! sessionId) ;;
  match hot with
  | Some session => ret (Some session)
  | None =>
      sessionData <- redis_get sessionId ;;
      match sessionData with
      | Some session =>
          modify (set_activeSessions <[sessionId := session]>) ;;;
          ret (Some session)
      | None => ret None
      end
  end.

Definition with_lastActivity (stamp : Z) (s : CallSession.t)
  : CallSession.t :=
  {| CallSession.callId := CallSession.callId s;
     CallSession.sessionId := CallSession.sessionId s;
     CallSession.userId := CallSession.userId s;
     CallSession.startTime := CallSession.startTime s;
     CallSession.lastActivity := stamp;
     CallSession.isActive := CallSession.isActive s |}.

Definition deactivated (s : CallSession.t) : CallSession.t :=
  {| CallSession.callId := CallSession.callId s;
     CallSession.sessionId := CallSession.sessionId s;
     CallSession.userId := CallSession.userId s;
     CallSession.startTime := CallSession.startTime s;
     CallSession.lastActivity := CallSession.lastActivity s;
     CallSession.isActive := false |}.

(** [updateSessionActivity(sessionId)].  The session is the object the hot
    set holds once [getCallSession] has returned it, so the assignment to
    [lastActivity] shows there before the cache is written.  The [catch]
    logs and does not rethrow. *)
Definition updateSessionActivity (sessionId : string) : M unit :=
  try_catch
    (found <- getCallSession sessionId ;;
     match found with
     | None => ret tt
     | Some session =>
         stamp <- now ;;
         let session := with_lastActivity stamp session in
         modify (set_activeSessions <[sessionId := session]>) ;;;
         RedisService.set_session sessionId session 3600 ;;;
         modify (set_activeSessions <[sessionId := session]>) ;;;
         ret tt
     end)
    (λ _, ret tt).

(** [endCallSession(sessionId)].  The [catch] logs and does not rethrow. *)
Definition endCallSession (sessionId : string) : M unit :=
  try_catch
    (found <- getCallSession sessionId ;;
     match found with
     | None => ret tt
     | Some session =>
         let session := deactivated session in
         modify (set_activeSessions <[sessionId := session]>) ;;;
         redis_del sessionId ;;;
         modify (set_activeSessions (delete sessionId)) ;;;
         log (Emit OfCallManager "session:ended" (PSession session)) ;;;
         ret tt
     end)
    (λ _, ret tt).

(** [for (const x of xs) await body(x)]. *)
Fixpoint for_each {A} (xs : list A) (body : A → M unit) : M unit :=
  match xs with
  | [] => ret tt
  | x :: xs => body x ;;; for_each xs body
  end.

(** [30 * 60 * 1000], in milliseconds. *)
Definition inactiveThreshold : Z := (30 * 60 * 1000)%Z.

(** [now.getTime() - session.lastActivity.getTime() > inactiveThreshold]. *)
Definition is_inactive (now : Z) (session : CallSession.t) : bool :=
  bool_decide (now - CallSession.lastActivity session > inactiveThreshold)%Z.

(** The entries the loop of [cleanupInactiveSessions] gets through: those
    before the first session whose [lastActivity] is a string.  There
    [session.lastActivity.getTime()] is not a function, the [TypeError]
    leaves the loop, and the [catch] of the method logs it and returns. *)
Fixpoint visited (textual : gset string)
  (entries : list (string * CallSession.t))
  : list (string * CallSession.t) :=
  match entries with
  | [] => []
  | entry :: rest =>
      if decide (fst entry ∈ textual) then []
      else entry :: visited textual rest
  end.

(** [cleanupInactiveSessions()].  A session that [getCallSession] parsed
    from the cache carries its dates as strings, and [lastActivity] stays
    one until [updateSessionActivity] assigns a [Date] to it; a session made
    by [createCallSession] carries [Date]s.  The world does not record which
    is which, so the identifiers of the hot-set sessions whose
    [lastActivity] is a string are given: [textual].  The entries are taken
    in the order of [map_to_list], where the source has the order of
    insertion; ending one session touches no other entry. *)
Definition cleanupInactiveSessions (textual : gset string) : M unit :=
  try_catch
    (now_ <- now ;;
     entries <- gets (λ w, map_to_list (activeSessions w)) ;;
     for_each (visited textual entries)
       (λ entry,
          if is_inactive now_ (snd entry)
          then endCallSession (fst entry)
          else ret tt))
    (λ _, ret tt).

(** [shutdown()]: every session is ended, then both hot sets are cleared.
    The [catch] rethrows. *)
Definition shutdown : M unit :=
  keys <- gets (λ w, fst <$> map_to_list (activeSessions w)) ;;
  for_each keys endCallSession ;;;
  modify (set_activeCalls (λ _, ∅)) ;;;
  modify (set_activeSessions (λ _, ∅)) ;;;
  ret tt.

End CallSessions.

(* ================================================================== *)
(** * RedisService: the reconnect strategy                              *)
(* ================================================================== *)

(** [reconnectStrategy(retries)] of the client options: [false] (here
    [None]) stops reconnecting, a number is the delay in milliseconds. *)
Definition reconnectStrategy (retries : Z) : option Z :=
  if (retries >? 10)%Z then None else Some (Z.min (retries * 50) 1000).

(* ================================================================== *)
(** * GET /calls: the page of active calls (routes/calls.ts)            *)
(* ================================================================== *)

Module CallRoutes.

(** [parseInt(text) || fallback]; [None] stands for [NaN]. *)
Definition or_fallback (parsed : option Z) (fallback : Z) : Z :=
  match parsed with
  | Some n => if decide (n = 0%Z) then fallback else n
  | None => fallback
  end.

(** The index [Array.prototype.slice] turns a bound into. *)
Definition slice_index (len bound : Z) : Z :=
  if (bound <? 0)%Z then Z.max (len + bound) 0 else Z.min bound len.

(** [xs.slice(start, end)]. *)
Definition slice {A} (xs : list A) (start end_ : Z) : list A :=
  let len := Z.of_nat (length xs) in
  let k := slice_index len start in
  let final := slice_index len end_ in
  take (Z.to_nat (final - k)) (drop (Z.to_nat k) xs).

(** [Math.ceil(a / b)] on integers, [b] not zero. *)
Definition ceil_div (a b : Z) : Z := (- ((- a) / b))%Z.

Record Pagination := mkPagination {
  page : Z;
  limit : Z;
  total : Z;
  pages : Z
}.

(** The body of the response: the slice and the pagination block. *)
Definition list_calls (page_param limit_param : option Z)
  (calls : list Call.t) : list Call.t * Pagination :=
  let page := or_fallback page_param 1 in
  let limit := or_fallback limit_param 10 in
  let startIndex := ((page - 1) * limit)%Z in
  let endIndex := (startIndex + limit)%Z in
  (slice calls startIndex endIndex,
   mkPagination page limit (Z.of_nat (length calls))
                (ceil_div (Z.of_nat (length calls)) limit)).

End CallRoutes.

(* ================================================================== *)
(** * The status of a response (errorHandler.ts, routes/calls.ts)       *)
(* ================================================================== *)

Module Http.

(** What [errorHandler] reads of the error it is given. *)
Record AppError := mkAppError {
  name : string;
  code : option Z;
  statusCode : option Z
}.

(** [new Error(message)]: the name is ["Error"], there is no
    [statusCode]. *)
Definition plain_error : AppError := mkAppError "Error" None None.

(** [errorHandler]: the status it responds with.  [error] starts as the
    copy [{ ...err }] and is replaced by each test that matches, in the
    order of the source; the status is [error.statusCode || 500]. *)
Definition errorHandler (err : AppError) : Z :=
  let error := statusCode err in
  let error :=
    if decide (name err = "CastError") then Some 404%Z else error in
  let error :=
    if decide (name err = "MongoError" ∧ code err = Some 11000%Z)
    then Some 400%Z else error in
  let error :=
    if decide (name err = "ValidationError") then Some 400%Z else error in
  let error :=
    if decide (name err = "JsonWebTokenError") then Some 401%Z else error in
  let error :=
    if decide (name err = "TokenExpiredError") then Some 401%Z else error in
  match error with
  | Some status => if decide (status = 0%Z) then 500%Z else status
  | None => 500%Z
  end.

(** [new CustomError(message, status)]: [statusCode] is an own property,
    the name is the inherited ["Error"]. *)
Definition custom_error (status : Z) : AppError :=
  mkAppError "Error" None (Some status).

(** The errors the services create themselves, all with
    [new Error(message)].  What the cache and store drivers throw is not
    described by this repository: [None]. *)
Definition thrown (e : Error) : option AppError :=
  match e with
  | ErrCallNotFound _ | ErrRowNotFound _ | ErrConnectionNotFound =>
      Some plain_error
  | ErrRedis | ErrPostgres => None
  end.

(** A route of [routes/calls.ts] with [errorHandler] behind it: the status
    of the response, [None] when a driver's error decides it.  [accepted] is
    the verdict of the validators put before the handler
    ([validateParams], [validateRequest]): the first that rejects throws a
    [CustomError] with status 400 and the handler does not run.  The handler
    runs under [asyncHandler], which hands what it throws to
    [errorHandler]. *)
Definition route {A} (accepted : bool) (found : Z) (m : M (option A))
  : M (option Z) :=
  if accepted then
    try_catch
      (result <- m ;;
       match result with
       | None => ret (Some 404%Z)
       | Some _ => ret (Some found)
       end)
      (λ e, ret (errorHandler <$> thrown e))
  else ret (Some (errorHandler (custom_error 400))).

(** [GET /:id]; [idOk]: [schemas.idParam] accepts the parameters. *)
Definition get_call_route (idOk : bool) (callId : string) : M (option Z) :=
  route idOk 200 (CallManager.getCall callId).

(** [PATCH /:id/status] with a body that carries a status; [bodyOk]:
    [schemas.updateCall] accepts the body. *)
Definition update_status_route (idOk bodyOk : bool) (callId : string)
  (status : CallStatus) : M (option Z) :=
  route (idOk && bodyOk) 200 (CallManager.updateCallStatus callId status).

(** [POST /:id/end]; [bodyOk]: [schemas.endCall] accepts the body. *)
Definition end_call_route (idOk bodyOk : bool) (callId : string)
  (body : PartialCall.t) : M (option Z) :=
  route (idOk && bodyOk) 200 (CallManager.endCall callId body).

End Http.

(* ================================================================== *)
(** * DatabaseService.updateCall: the statement it builds               *)
(* ================================================================== *)

Module UpdateQuery.

(** A value bound to a placeholder. *)
Inductive SqlValue :=
| VStatus (s : CallStatus)
| VNumber (n : Z)
| VText (s : string)
| VSentiment (s : Sentiment)
| VDate (stamp : Z).

(** The builder's three variables: [setParts] (a column and the number of
    its placeholder), [values], [paramIndex]. *)
Record Builder := mkBuilder {
  setParts : list (string * nat);
  values : list SqlValue;
  paramIndex : nat
}.

(** [setParts.push(`${column} = $${paramIndex++}`); values.push(v)]. *)
Definition push (column : string) (v : SqlValue) (b : Builder) : Builder :=
  mkBuilder (setParts b ++ [(column, paramIndex b)]) (values b ++ [v])
            (S (paramIndex b)).

(** [if (field !== undefined) { push }]. *)
Definition push_if {A} (column : string) (wrap : A → SqlValue)
  (field : option A) (b : Builder) : Builder :=
  match field with
  | Some v => push column (wrap v) b
  | None => b
  end.

(** The statement [updateCall] sends: the SET list, the values (the call
    identifier last) and the number of the placeholder of [WHERE id]. *)
Definition build (callId : string) (updates : PartialCall.t) (stamp : Z)
  : Builder :=
  let b := mkBuilder [] [] 1 in
  let b := push_if "status" VStatus (PartialCall.status updates) b in
  let b := push_if "duration" VNumber (PartialCall.duration updates) b in
  let b := push_if "recording_url" VText (PartialCall.recordingUrl updates) b in
  let b := push_if "transcript" VText (PartialCall.transcript updates) b in
  let b := push_if "summary" VText (PartialCall.summary updates) b in
  let b := push_if "sentiment" VSentiment (PartialCall.sentiment updates) b in
  let b := push_if "confidence_score" VNumber
                   (PartialCall.confidenceScore updates) b in
  let b := push "updated_at" (VDate stamp) b in
  mkBuilder (setParts b) (values b ++ [VText callId]) (paramIndex b).

(** The value a placeholder stands for: [$n] is [values[n - 1]]. *)
Definition bound (b : Builder) (n : nat) : option SqlValue :=
  match n with
  | 0 => None
  | S i => values b !! i
  end.

(** What [SET column = v] does to a row of [calls]; [None] when the table
    has no such column or the value is not of the column's type. *)
Definition assign (column : string) (v : SqlValue) (row : Call.t)
  : option Call.t :=
  let '(Call.mk id clientId phoneNumber direction status duration
                recordingUrl transcript summary sentiment confidenceScore
                createdAt updatedAt) := row in
  match v with
  | VStatus s =>
      if decide (column = "status") then
        Some (Call.mk id clientId phoneNumber direction s duration
                      recordingUrl transcript summary sentiment
                      confidenceScore createdAt updatedAt)
      else None
  | VNumber n =>
      if decide (column = "duration") then
        Some (Call.mk id clientId phoneNumber direction status n
                      recordingUrl transcript summary sentiment
                      confidenceScore createdAt updatedAt)
      else if decide (column = "confidence_score") then
        Some (Call.mk id clientId phoneNumber direction status duration
                      recordingUrl transcript summary sentiment (Some n)
                      createdAt updatedAt)
      else None
  | VText s =>
      if decide (column = "recording_url") then
        Some (Call.mk id clientId phoneNumber direction status duration
                      (Some s) transcript summary sentiment confidenceScore
                      createdAt updatedAt)
      else if decide (column = "transcript") then
        Some (Call.mk id clientId phoneNumber direction status duration
                      recordingUrl (Some s) summary sentiment confidenceScore
                      createdAt updatedAt)
      else if decide (column = "summary") then
        Some (Call.mk id clientId phoneNumber direction status duration
                      recordingUrl transcript (Some s) sentiment
                      confidenceScore createdAt updatedAt)
      else None
  | VSentiment s =>
      if decide (column = "sentiment") then
        Some (Call.mk id clientId phoneNumber direction status duration
                      recordingUrl transcript summary (Some s)
                      confidenceScore createdAt updatedAt)
      else None
  | VDate stamp =>
      if decide (column = "updated_at") then
        Some (Call.mk id clientId phoneNumber direction status duration
                      recordingUrl transcript summary sentiment
                      confidenceScore createdAt stamp)
      else None
  end.

(** The SET list carried out on a row, part by part, each placeholder
    replaced by the value bound to it. *)
Definition execute (b : Builder) (row : Call.t) : option Call.t :=
  foldl (λ acc part,
           r ← acc; v ← bound b part.2; assign part.1 v r)
        (Some row) (setParts b).

End UpdateQuery.

(* ================================================================== *)
(** * More concrete worlds                                              *)
(* ================================================================== *)

(** One session, ["c1"], created for the unknown call [ghost]. *)
Definition one_session : World :=
  run [HttpCreateSession ghost None] fresh_start.

(** The same with the cache out of reach. *)
Definition redis_down (w : World) : World :=
  mkWorld
    (clock w) (ticks w) (uuids w) (uuidCount w) false (pgUp w)
    (trace w) (redisCalls w) (redisSessions w) (calls_table w)
    (activeCalls w) (activeSessions w) (activeConnections w)
    (socketToConnection w) (rooms w) (sip_activeCalls w).

(** The same with the store out of reach. *)
Definition pg_down (w : World) : World :=
  mkWorld
    (clock w) (ticks w) (uuids w) (uuidCount w) (redisUp w) false
    (trace w) (redisCalls w) (redisSessions w) (calls_table w)
    (activeCalls w) (activeSessions w) (activeConnections w)
    (socketToConnection w) (rooms w) (sip_activeCalls w).

(** A clock that jumps 31 minutes ahead after its first two readings. *)
Definition late_clock (n : nat) : Z :=
  if (n <? 2)%nat then ticking n else (ticking n + 31 * 60 * 1000)%Z.

(** One session created, then nothing for 31 minutes. *)
Definition idle_session : World :=
  run [HttpCreateSession ghost None] (initial late_clock ids).
(* ================================================================== *)
(** * Proof tools                                                       *)
(* ================================================================== *)

(** Opens the collaborator calls and the monad operations. *)
Ltac unfold_monad :=
  unfold RedisService.set_call, RedisService.get_call, RedisService.del_call,
    RedisService.set_session, RedisService.client,
    DatabaseService.createCall, DatabaseService.getCall,
    DatabaseService.updateCall, DatabaseService.connect,
    bind, gets, modify, log, ret, throw, now, uuidv4, try_catch,
    fire_and_forget.

(** Runs a method body, given that both collaborators serve and which row
    the store holds. *)
Ltac run_with Hup Hpg Hdb :=
  repeat (simpl; rewrite ?Hup, ?Hpg, ?Hdb).

Ltac by_computation := vm_compute; reflexivity.

Lemma string_length_app (s1 s2 : string) :
  String.length (s1 +:+ s2) = String.length s1 + String.length s2.
Proof. induction s1 as [|a s1 IH]; simpl; [done | by rewrite IH]. Qed.

Lemma string_app_inj_r (s1 s2 t : string) : s1 +:+ t = s2 +:+ t → s1 = s2.
Proof.
  revert s2. induction s1 as [|a s1 IH]; intros [|b s2] H.
  - done.
  - apply (f_equal String.length) in H.
    rewrite !string_length_app in H. simpl in H. lia.
  - apply (f_equal String.length) in H.
    rewrite !string_length_app in H. simpl in H. lia.
  - change (String a (s1 +:+ t) = String b (s2 +:+ t)) in H.
    injection H as -> H. f_equal. by apply IH.
Qed.

Lemma trace_since_app w w' l :
  trace w' = trace w ++ l → trace_since w w' = l.
Proof. intros H. unfold trace_since. rewrite H. apply drop_app_length. Qed.

Lemma run_app (rs1 rs2 : list Request) (w : World) :
  run (rs1 ++ rs2) w = run rs2 (run rs1 w).
Proof. apply foldl_app. Qed.

(* ================================================================== *)
(** * getCall: the four ways through the tiers                          *)
(* ================================================================== *)

Lemma tiers_lookup callId w :
  tiers w !! callId =
    match activeCalls w !! callId with
    | Some c => Some c
    | None =>
        match redisCalls w !! callId with
        | Some (c, _) => Some c
        | None => calls_table w !! callId
        end
    end.
Proof.
  unfold tiers.
  destruct (activeCalls w !! callId) as [c|] eqn:Hhot.
  { erewrite lookup_union_Some_l; [done|]. by erewrite lookup_union_Some_l. }
  destruct (redisCalls w !! callId) as [[c ttl]|] eqn:Hc.
  { erewrite lookup_union_Some_l; [done|].
    rewrite lookup_union_r; [|done]. by rewrite lookup_fmap, Hc. }
  rewrite lookup_union_r; [done|].
  apply lookup_union_None. split; [done|]. by rewrite lookup_fmap, Hc.
Qed.

Lemma getCall_hot callId call w :
  activeCalls w !! callId = Some call →
  CallManager.getCall callId w = (Ok (Some call), w).
Proof.
  intros H. unfold CallManager.getCall, bind, gets. by rewrite H.
Qed.

Lemma getCall_cache callId call ttl w :
  activeCalls w !! callId = None →
  redisUp w = true →
  redisCalls w !! callId = Some (call, ttl) →
  CallManager.getCall callId w =
    (Ok (Some call),
     set_activeCalls <[callId := call]>
       (set_trace (λ t, t ++ [RedisGet ("call:" +:+ callId)]) w)).
Proof.
  intros Hhot Hup Hc. unfold CallManager.getCall. unfold_monad.
  rewrite Hhot. simpl. rewrite Hup. simpl. by rewrite Hc.
Qed.

Lemma getCall_store callId call w :
  activeCalls w !! callId = None →
  redisUp w = true →
  redisCalls w !! callId = None →
  pgUp w = true →
  calls_table w !! callId = Some call →
  CallManager.getCall callId w =
    (Ok (Some call),
     set_activeCalls <[callId := call]>
       (set_redisCalls <[callId := (call, 3600%Z)]>
          (set_trace (λ t, t ++ [RedisGet ("call:" +:+ callId);
                                 PgSelect callId;
                                 RedisSet ("call:" +:+ callId) 3600])
             w))).
Proof.
  intros Hhot Hup Hc Hpg Hdb. unfold CallManager.getCall. unfold_monad.
  rewrite Hhot. simpl. rewrite Hup. simpl. rewrite Hc. simpl.
  rewrite Hpg. simpl. rewrite Hdb. simpl. rewrite Hup.
  unfold set_activeCalls, set_redisCalls, set_trace. simpl.
  by rewrite <- !app_assoc.
Qed.

Lemma getCall_miss callId w :
  activeCalls w !! callId = None →
  redisUp w = true →
  redisCalls w !! callId = None →
  pgUp w = true →
  calls_table w !! callId = None →
  CallManager.getCall callId w =
    (Ok None,
     set_trace (λ t, t ++ [RedisGet ("call:" +:+ callId); PgSelect callId]) w).
Proof.
  intros Hhot Hup Hc Hpg Hdb. unfold CallManager.getCall. unfold_monad.
  rewrite Hhot. simpl. rewrite Hup. simpl. rewrite Hc. simpl.
  rewrite Hpg. simpl. rewrite Hdb. simpl.
  unfold set_trace. simpl. by rewrite <- !app_assoc.
Qed.

(** A call that has a row in the store is found, through the first tier
    that holds it. *)
Lemma getCall_resolves callId row w :
  redisUp w = true →
  pgUp w = true →
  calls_table w !! callId = Some row →
  ∃ call w1,
    CallManager.getCall callId w = (Ok (Some call), w1) ∧
    tiers w !! callId = Some call ∧
    (w1 = w ∧ activeCalls w !! callId = Some call ∨
     w1 = set_activeCalls <[callId := call]>
            (set_trace (λ t, t ++ [RedisGet ("call:" +:+ callId)]) w) ∨
     w1 = set_activeCalls <[callId := call]>
            (set_redisCalls <[callId := (call, 3600%Z)]>
               (set_trace (λ t, t ++ [RedisGet ("call:" +:+ callId);
                                      PgSelect callId;
                                      RedisSet ("call:" +:+ callId) 3600])
                  w))).
Proof.
  intros Hup Hpg Hdb. rewrite tiers_lookup.
  destruct (activeCalls w !! callId) as [c|] eqn:Hhot.
  { exists c, w. rewrite (getCall_hot _ _ _ Hhot). auto. }
  destruct (redisCalls w !! callId) as [[c ttl]|] eqn:Hc.
  { eexists c, _. rewrite (getCall_cache _ _ _ _ Hhot Hup Hc). auto. }
  eexists row, _. rewrite (getCall_store _ _ _ Hhot Hup Hc Hpg Hdb). auto.
Qed.

(* ================================================================== *)
(** * CallManager.getCall                                               *)
(* ================================================================== *)

(** C4.  When cache and store serve, [getCall] returns what the first of the
    tiers hot set, cache, store holds for the identifier, and reports
    not-found exactly when all three miss.  The collaborators are consulted
    in that order: nothing on a hot-set hit, the cache alone on a cache hit,
    the cache and then the store otherwise.  Every hit leaves the call in the
    hot set; a store hit also writes it back to the cache (TTL 3600); the
    store itself is never written. *)
Theorem getCall_three_tiers (callId : string) (w : World) :
  redisUp w = true →
  pgUp w = true →
  ∃ w',
    CallManager.getCall callId w = (Ok (tiers w !! callId), w') ∧
    (tiers w !! callId = None ↔
       activeCalls w !! callId = None ∧
       redisCalls w !! callId = None ∧
       calls_table w !! callId = None) ∧
    trace_since w w' =
      match activeCalls w !! callId with
      | Some _ => []
      | None =>
          RedisGet ("call:" +:+ callId) ::
          match redisCalls w !! callId with
          | Some _ => []
          | None =>
              PgSelect callId ::
              match calls_table w !! callId with
              | Some _ => [RedisSet ("call:" +:+ callId) 3600]
              | None => []
              end
          end
      end ∧
    activeCalls w' =
      match tiers w !! callId with
      | Some call => <[callId := call]> (activeCalls w)
      | None => activeCalls w
      end ∧
    redisCalls w' =
      match activeCalls w !! callId, redisCalls w !! callId,
            calls_table w !! callId with
      | None, None, Some call => <[callId := (call, 3600%Z)]> (redisCalls w)
      | _, _, _ => redisCalls w
      end ∧
    calls_table w' = calls_table w.
Proof.
  intros Hup Hpg. rewrite tiers_lookup.
  destruct (activeCalls w !! callId) as [c|] eqn:Hhot.
  { exists w. rewrite (getCall_hot _ _ _ Hhot). split_and!; try done.
    - split; [done | by intros (? & _)].
    - unfold trace_since. by rewrite drop_all.
    - by rewrite insert_id. }
  destruct (redisCalls w !! callId) as [[c ttl]|] eqn:Hc.
  { eexists. rewrite (getCall_cache _ _ _ _ Hhot Hup Hc).
    split_and!; try done.
    - split; [done | by intros (_ & ? & _)].
    - by apply trace_since_app. }
  destruct (calls_table w !! callId) as [c|] eqn:Hdb.
  { eexists. rewrite (getCall_store _ _ _ Hhot Hup Hc Hpg Hdb).
    split_and!; try done.
    - split; [done | by intros (_ & _ & ?)].
    - by apply trace_since_app. }
  eexists. rewrite (getCall_miss _ _ Hhot Hup Hc Hpg Hdb).
  split_and!; try done. by apply trace_since_app.
Qed.

(** C4 at a call that is in the store only: the cache is asked, then the
    store, the cache is repopulated and the hot set holds the call. *)
Lemma getCall_three_tiers_witness :
  redisUp store_only = true ∧
  pgUp store_only = true ∧
  ∃ w',
    CallManager.getCall "c1" store_only
      = (Ok (tiers store_only !! "c1"), w') ∧
    trace_since store_only w'
      = [RedisGet "call:c1"; PgSelect "c1"; RedisSet "call:c1" 3600] ∧
    activeCalls w' !! "c1" = tiers store_only !! "c1" ∧
    is_Some (redisCalls w' !! "c1").
Proof.
  assert (Hup : redisUp store_only = true) by by_computation.
  assert (Hpg : pgUp store_only = true) by by_computation.
  split; [exact Hup|]. split; [exact Hpg|].
  destruct (getCall_three_tiers "c1" store_only Hup Hpg)
    as (w' & Hrun & _ & Htr & Hhot & Hcache & _).
  exists w'. split; [exact Hrun|].
  split; [rewrite Htr; by_computation|].
  rewrite Hhot, Hcache. split.
  - destruct (tiers store_only !! "c1") as [call|] eqn:Ht;
      [|vm_compute in Ht; discriminate Ht].
    apply lookup_insert_eq.
  - vm_compute. eexists. reflexivity.
Defined.

(* ================================================================== *)
(** * Unknown identifiers                                               *)
(* ================================================================== *)

(** C7.  For an identifier that none of the three tiers knows, and with
    cache and store serving: [getCall] returns [null], [updateCallStatus]
    and [endCall] throw the call-not-found error, and after each of the
    three the hot set, the cache and the store are what they were. *)
Theorem unknown_call_is_not_found (callId : string) (w : World) :
  redisUp w = true →
  pgUp w = true →
  activeCalls w !! callId = None →
  redisCalls w !! callId = None →
  calls_table w !! callId = None →
  ∀ (status : CallStatus) (endData : PartialCall.t),
    (∃ w', CallManager.getCall callId w = (Ok None, w') ∧ same_stores w w') ∧
    (∃ e w', CallManager.updateCallStatus callId status w = (Throw e, w') ∧
             is_NotFound e = true ∧ same_stores w w') ∧
    (∃ e w', CallManager.endCall callId endData w = (Throw e, w') ∧
             is_NotFound e = true ∧ same_stores w w').
Proof.
  intros Hup Hpg Hhot Hc Hdb status endData.
  pose proof (getCall_miss _ _ Hhot Hup Hc Hpg Hdb) as Hget.
  split_and!.
  - eexists. split; [exact Hget | by repeat split].
  - eexists (ErrCallNotFound callId), _.
    unfold CallManager.updateCallStatus, bind. rewrite Hget. simpl.
    by repeat split.
  - eexists (ErrCallNotFound callId), _.
    unfold CallManager.endCall, bind. rewrite Hget. simpl.
    by repeat split.
Qed.

(** C7 at an identifier no call was created under, beside an existing
    call. *)
Lemma unknown_call_is_not_found_witness :
  redisUp one_call = true ∧
  pgUp one_call = true ∧
  activeCalls one_call !! ghost = None ∧
  redisCalls one_call !! ghost = None ∧
  calls_table one_call !! ghost = None ∧
  (∃ w', CallManager.getCall ghost one_call = (Ok None, w')) ∧
  (∃ e w', CallManager.updateCallStatus ghost answered one_call = (Throw e, w') ∧
           is_NotFound e = true) ∧
  (∃ e w', CallManager.endCall ghost (end_body 7) one_call = (Throw e, w') ∧
           is_NotFound e = true).
Proof.
  assert (Hup : redisUp one_call = true) by by_computation.
  assert (Hpg : pgUp one_call = true) by by_computation.
  assert (Hhot : activeCalls one_call !! ghost = None) by by_computation.
  assert (Hcache : redisCalls one_call !! ghost = None) by by_computation.
  assert (Hdb : calls_table one_call !! ghost = None) by by_computation.
  split; [exact Hup|]. split; [exact Hpg|]. split; [exact Hhot|].
  split; [exact Hcache|]. split; [exact Hdb|].
  destruct (unknown_call_is_not_found ghost one_call Hup Hpg Hhot Hcache Hdb
              answered (end_body 7))
    as ((w1 & Hget & _) & (e2 & w2 & Hupd & Hnf2 & _)
        & (e3 & w3 & Hend & Hnf3 & _)).
  split; [by exists w1|].
  split; [exists e2, w2 | exists e3, w3]; split; assumption.
Defined.

(* ================================================================== *)
(** * CallManager.updateCallStatus                                      *)
(* ================================================================== *)

(** C2, at a concrete input.  ["c1"] was moved to [completed]; a second
    [updateCallStatus("c1", completed)] succeeds, but it is no no-op: the
    returned call carries a new [updatedAt], the cache is written again and
    the stored row gets a new [updated_at]. *)
Lemma updateCallStatus_terminal_counterexample :
  let before := activeCalls terminal_call !! "c1" in
  let out := CallManager.updateCallStatus "c1" completed terminal_call in
  Call.status <$> before = Some completed ∧
  (∃ call, fst out = Ok (Some call) ∧
           Some (Call.updatedAt call) ≠ Call.updatedAt <$> before) ∧
  cache_writes (trace_since terminal_call (snd out))
    = [RedisSet "call:c1" 3600] ∧
  Call.updatedAt <$> calls_table (snd out) !! "c1"
    ≠ Call.updatedAt <$> calls_table terminal_call !! "c1".
Proof.
  vm_compute. split; [reflexivity|]. split.
  { eexists. split; [reflexivity | discriminate]. }
  split; [reflexivity | discriminate].
Qed.

(** C2 as amended.  [updateCallStatus] does not look at the current status.
    For every call that has a row in the store, terminal or not, and with
    cache and store serving, it succeeds and applies the request: the call
    found through the tiers gets the requested status and a fresh
    [updatedAt], the row is updated (status, and [updated_at] from a further
    clock reading), the cache entry is rewritten with TTL 3600, the hot set
    holds the updated call, and [call:statusUpdated] is emitted with the old
    and the new status. *)
Theorem updateCallStatus_applies_to_any_status
  (callId : string) (status : CallStatus) (w : World) (row : Call.t) :
  redisUp w = true →
  pgUp w = true →
  calls_table w !! callId = Some row →
  ∃ call w',
    tiers w !! callId = Some call ∧
    let updated := CallManager.with_status status (clock w (ticks w)) call in
    CallManager.updateCallStatus callId status w = (Ok (Some updated), w') ∧
    Call.status updated = status ∧
    Call.updatedAt updated = clock w (ticks w) ∧
    activeCalls w' = <[callId := updated]> (activeCalls w) ∧
    redisCalls w' = <[callId := (updated, 3600%Z)]> (redisCalls w) ∧
    calls_table w' =
      <[callId := DatabaseService.apply_updates
                    (CallManager.only_status status)
                    (clock w (S (ticks w))) row]> (calls_table w) ∧
    trace w' =
      trace (snd (CallManager.getCall callId w)) ++
      [PgUpdate callId (CallManager.only_status status);
       RedisSet ("call:" +:+ callId) 3600;
       Emit OfCallManager "call:statusUpdated"
            (PStatusUpdate updated (Call.status call) status)].
Proof.
  intros Hup Hpg Hdb.
  destruct (getCall_resolves _ _ _ Hup Hpg Hdb) as (call & w1 & Hget & Ht & Hw1).
  exists call. unfold CallManager.updateCallStatus. rewrite Hget.
  unfold bind at 1. rewrite Hget.
  destruct Hw1 as [[-> Hhot] | [-> | ->]]; unfold_monad;
    run_with Hup Hpg Hdb; eexists; split_and!; try done;
    simpl; rewrite ?insert_insert_eq; try done;
    by rewrite <- ?app_assoc.
Qed.

(** C2 as amended, at the completed call ["c1"]: a request for [ringing]
    is applied to it. *)
Lemma updateCallStatus_applies_to_any_status_witness :
  redisUp terminal_call = true ∧
  pgUp terminal_call = true ∧
  (Call.status <$> calls_table terminal_call !! "c1") = Some completed ∧
  ∃ call w',
    is_terminal (Call.status call) = true ∧
    CallManager.updateCallStatus "c1" ringing terminal_call
      = (Ok (Some (CallManager.with_status ringing
                     (clock terminal_call (ticks terminal_call)) call)),
         w').
Proof.
  assert (Hup : redisUp terminal_call = true) by by_computation.
  assert (Hpg : pgUp terminal_call = true) by by_computation.
  split; [exact Hup|]. split; [exact Hpg|]. split; [by_computation|].
  destruct (calls_table terminal_call !! "c1") as [row|] eqn:Hrow;
    [|vm_compute in Hrow; discriminate Hrow].
  destruct (updateCallStatus_applies_to_any_status "c1" ringing terminal_call
              row Hup Hpg Hrow)
    as (call & w' & Ht & Hrun & _).
  exists call, w'. split; [|exact Hrun].
  vm_compute in Ht. injection Ht as <-. reflexivity.
Defined.

(* ================================================================== *)
(** * CallManager.createCallSession                                     *)
(* ================================================================== *)

(** C1, at a concrete input.  On a fresh start no tier knows [ghost]
    ([getCall] returns [null]), yet [createCallSession(ghost)] returns a
    session for it and leaves that session in the cache and in the session
    hot set. *)
Lemma createCallSession_unknown_call_counterexample :
  let out := CallManager.createCallSession ghost None fresh_start in
  fst (CallManager.getCall ghost fresh_start) = Ok None ∧
  match fst out with
  | Ok session =>
      CallSession.callId session = ghost ∧
      redisSessions (snd out) !! CallSession.sessionId session
        = Some (session, 3600%Z) ∧
      activeSessions (snd out) !! CallSession.sessionId session
        = Some session
  | Throw _ => False
  end.
Proof. vm_compute. repeat split; reflexivity. Qed.

(** C1 as amended.  [createCallSession] never consults the call registry.
    For every call identifier, resolving or not, and with the cache serving,
    it succeeds: it returns an active session for that identifier with a new
    session identifier, writes it to the cache with TTL 3600 and to the
    session hot set, and emits [session:created].  It asks neither cache nor
    store for the call, and leaves the tiers of calls as they were. *)
Theorem createCallSession_ignores_registry (callId : string)
  (userId : option string) (w : World) :
  redisUp w = true →
  ∃ session w',
    CallManager.createCallSession callId userId w = (Ok session, w') ∧
    session =
      {| CallSession.callId := callId;
         CallSession.sessionId := uuids w (uuidCount w);
         CallSession.userId := userId;
         CallSession.startTime := clock w (ticks w);
         CallSession.lastActivity := clock w (S (ticks w));
         CallSession.isActive := true |} ∧
    redisSessions w' =
      <[CallSession.sessionId session := (session, 3600%Z)]> (redisSessions w) ∧
    activeSessions w' =
      <[CallSession.sessionId session := session]> (activeSessions w) ∧
    trace_since w w' =
      [RedisSet ("session:" +:+ CallSession.sessionId session) 3600;
       Emit OfCallManager "session:created" (PSession session)] ∧
    same_stores w w'.
Proof.
  intros Hup. unfold CallManager.createCallSession. unfold_monad.
  simpl. rewrite Hup. simpl.
  eexists _, _. split_and!; try done.
  apply trace_since_app. simpl. by rewrite <- app_assoc.
Qed.

(** C1 as amended, at the identifier [ghost] on a fresh start. *)
Lemma createCallSession_ignores_registry_witness :
  redisUp fresh_start = true ∧
  ∃ session w',
    CallManager.createCallSession ghost None fresh_start = (Ok session, w') ∧
    CallSession.callId session = ghost ∧
    same_stores fresh_start w'.
Proof.
  assert (Hup : redisUp fresh_start = true) by by_computation.
  split; [exact Hup|].
  destruct (createCallSession_ignores_registry ghost None fresh_start Hup)
    as (s & w' & Hrun & Hs & _ & _ & _ & Hsame).
  exists s, w'. split; [exact Hrun|]. split; [|exact Hsame].
  rewrite Hs. reflexivity.
Defined.

(* ================================================================== *)
(** * CallManager.createCall                                            *)
(* ================================================================== *)

(** C5, at a concrete input.  With a clock that advances between the two
    [new Date()] of the object literal, the call [createCall] returns has
    different creation and update timestamps. *)
Lemma createCall_timestamps_counterexample :
  match fst (CallManager.createCall (create_body None phone incoming)
               fresh_start) with
  | Ok call => Call.createdAt call ≠ Call.updatedAt call
  | Throw _ => False
  end.
Proof. vm_compute. discriminate. Qed.

(** C5 as amended.  For every valid draft, with cache and store serving and
    an identifier from [uuidv4] that the store does not hold yet,
    [createCall] returns a call with that identifier, status [initiated]
    (not terminal), duration 0, [createdAt] the clock reading taken when the
    record is built and [updatedAt] the next, separate reading (so the two
    are equal when the clock did not advance in between); the other fields
    are the draft's; and [getCall] on the identifier, run next, returns that
    same call without changing anything. *)
Theorem createCall_then_getCall (draft : PartialCall.t) (w : World) :
  valid_draft draft →
  redisUp w = true →
  pgUp w = true →
  calls_table w !! uuids w (uuidCount w) = None →
  ∃ call w',
    CallManager.createCall draft w = (Ok call, w') ∧
    Call.id call = uuids w (uuidCount w) ∧
    Call.status call = initiated ∧
    is_terminal (Call.status call) = false ∧
    Call.duration call = 0%Z ∧
    Call.createdAt call = clock w (ticks w) ∧
    Call.updatedAt call = clock w (S (ticks w)) ∧
    (clock w (ticks w) = clock w (S (ticks w)) →
     Call.createdAt call = Call.updatedAt call) ∧
    PartialCall.phoneNumber draft = Some (Call.phoneNumber call) ∧
    PartialCall.direction draft = Some (Call.direction call) ∧
    PartialCall.clientId draft = Call.clientId call ∧
    PartialCall.recordingUrl draft = Call.recordingUrl call ∧
    PartialCall.transcript draft = Call.transcript call ∧
    PartialCall.summary draft = Call.summary call ∧
    PartialCall.sentiment draft = Call.sentiment call ∧
    PartialCall.confidenceScore draft = Call.confidenceScore call ∧
    CallManager.getCall (Call.id call) w' = (Ok (Some call), w').
Proof.
  intros ([phone Hphone] & [dir Hdir] & Hid & Hst & Hdur & Hc & Hu)
         Hup Hpg Hfresh.
  unfold CallManager.createCall, CallManager.build_call. unfold_monad.
  simpl. rewrite Hphone, Hdir, Hid, Hdur, Hc, Hu. simpl.
  rewrite Hpg. simpl. rewrite Hfresh. simpl. rewrite Hup. simpl.
  eexists _, _. split; [reflexivity|]. simpl.
  split_and!; try done.
  - by destruct Hst as [-> | ->].
  - by destruct Hst as [-> | ->].
  - apply getCall_hot. simpl. apply lookup_insert_eq.
Qed.

(** C5 as amended, at a body accepted by [schemas.createCall] on a fresh
    start. *)
Lemma createCall_then_getCall_witness :
  valid_draft (create_body None phone incoming) ∧
  redisUp fresh_start = true ∧
  pgUp fresh_start = true ∧
  calls_table fresh_start !! uuids fresh_start (uuidCount fresh_start) = None ∧
  ∃ call w',
    CallManager.createCall (create_body None phone incoming) fresh_start
      = (Ok call, w') ∧
    Call.id call = "c1" ∧
    Call.status call = initiated ∧
    CallManager.getCall (Call.id call) w' = (Ok (Some call), w').
Proof.
  assert (Hvalid : valid_draft (create_body None phone incoming)).
  { unfold valid_draft. simpl. repeat split; eauto. }
  assert (Hup : redisUp fresh_start = true) by by_computation.
  assert (Hpg : pgUp fresh_start = true) by by_computation.
  assert (Hfresh : calls_table fresh_start
                     !! uuids fresh_start (uuidCount fresh_start) = None)
    by by_computation.
  split; [exact Hvalid|]. split; [exact Hup|]. split; [exact Hpg|].
  split; [exact Hfresh|].
  destruct (createCall_then_getCall (create_body None phone incoming)
              fresh_start Hvalid Hup Hpg Hfresh)
    as (call & w' & Hrun & Hid & Hst & _ & _ & _ & _ & _ & _ & _ & _ & _ & _
        & _ & _ & _ & Hget).
  exists call, w'.
  split; [exact Hrun|]. split; [exact Hid|]. split; [exact Hst | exact Hget].
Defined.

(* ================================================================== *)
(** * CallManager.endCall                                               *)
(* ================================================================== *)

(** What [endCall] does to a call that has a row in the store. *)
Lemma endCall_run (callId : string) (endData : PartialCall.t) (w : World)
  (row : Call.t) :
  redisUp w = true →
  pgUp w = true →
  calls_table w !! callId = Some row →
  ∃ call w' pre,
    tiers w !! callId = Some call ∧
    let ended :=
      CallManager.with_status completed (clock w (ticks w))
        (CallManager.Object_assign call endData) in
    CallManager.endCall callId endData w = (Ok (Some ended), w') ∧
    activeCalls w' = delete callId (activeCalls w) ∧
    redisCalls w' = delete callId (redisCalls w) ∧
    calls_table w' =
      <[callId := DatabaseService.apply_updates endData
                    (clock w (S (ticks w))) row]> (calls_table w) ∧
    trace w' =
      trace w ++ pre ++
      [PgUpdate callId endData;
       RedisDel ("call:" +:+ callId);
       Emit OfCallManager "call:ended" (PCall ended)] ∧
    ticks w' = S (S (ticks w)) ∧
    sip_activeCalls w' = sip_activeCalls w.
Proof.
  intros Hup Hpg Hdb.
  destruct (getCall_resolves _ _ _ Hup Hpg Hdb) as (call & w1 & Hget & Ht & Hw1).
  exists call. unfold CallManager.endCall.
  unfold bind at 1. rewrite Hget.
  destruct Hw1 as [[-> Hhot] | [-> | ->]]; unfold_monad;
    run_with Hup Hpg Hdb.
  - eexists _, []. split_and!; try done; simpl;
      rewrite ?delete_insert_eq; try done. by rewrite <- ?app_assoc.
  - eexists _, [_]. split_and!; try done; simpl;
      rewrite ?delete_insert_eq; try done. by rewrite <- ?app_assoc.
  - eexists _, [_; _; _]. split_and!; try done; simpl;
      rewrite ?delete_insert_eq; try done. by rewrite <- ?app_assoc.
Qed.

(** C6, at the failing input: the call ["c1"], created over HTTP, is ended
    by [POST /:id/end] with the body [{ duration: 42 }], cache and store
    serving.  [endCall] returns the call with the duration merged in and the
    status forced to [completed], removes the cache entry and the hot-set
    entry, so that [getActiveCalls] is empty, and emits [call:ended] last.
    The row in the store was given the body only: it has the duration 42 and
    still the status [initiated], which is not terminal, and that is the
    call the next [getCall] returns. *)
Lemma endCall_over_http_keeps_row_status :
  let out := CallManager.endCall "c1" (end_body 42) one_call in
  let w' := snd out in
  (Call.status <$> tiers one_call !! "c1") = Some initiated ∧
  match fst out with
  | Ok (Some ended) =>
      Call.status ended = completed ∧
      is_terminal (Call.status ended) = true ∧
      Call.duration ended = 42%Z ∧
      last (trace w') = Some (Emit OfCallManager "call:ended" (PCall ended))
  | _ => False
  end ∧
  redisCalls w' !! "c1" = None ∧
  activeCalls w' !! "c1" = None ∧
  CallManager.getActiveCalls w' = [] ∧
  head (trace_since one_call w') = Some (PgUpdate "c1" (end_body 42)) ∧
  PartialCall.status (end_body 42) = None ∧
  (Call.duration <$> calls_table w' !! "c1") = Some 42%Z ∧
  (Call.status <$> calls_table w' !! "c1") = Some initiated ∧
  is_terminal initiated = false ∧
  match fst (CallManager.getCall "c1" w') with
  | Ok (Some found) =>
      Call.status found = initiated ∧ Call.duration found = 42%Z
  | _ => False
  end.
Proof.
  vm_compute. by split_and!.
Qed.

(** C10.  For every call that has a row in the store and every [endData],
    with cache and store serving: the call [endCall] returns, which is also
    the one handed to the listeners of [call:ended], has status [completed];
    the store is called with [endData] itself, so the stored status becomes
    [endData]'s status when it has one and stays what it was otherwise; and
    whenever [endData] names a status other than [completed], the stored
    status differs from the returned one. *)
Theorem endCall_returned_and_stored_status (callId : string)
  (endData : PartialCall.t) (w : World) (row : Call.t) :
  redisUp w = true →
  pgUp w = true →
  calls_table w !! callId = Some row →
  ∃ returned stored w',
    CallManager.endCall callId endData w = (Ok (Some returned), w') ∧
    Call.status returned = completed ∧
    Emit OfCallManager "call:ended" (PCall returned) ∈ trace_since w w' ∧
    PgUpdate callId endData ∈ trace_since w w' ∧
    calls_table w' !! callId = Some stored ∧
    Call.status stored =
      default (Call.status row) (PartialCall.status endData) ∧
    (∀ s, PartialCall.status endData = Some s → s ≠ completed →
          Call.status stored ≠ Call.status returned).
Proof.
  intros Hup Hpg Hdb.
  destruct (endCall_run callId endData w row Hup Hpg Hdb)
    as (call & w' & pre & Ht & Hrun & Hhot & Hcache & Hstore & Htr & _).
  eexists _, _, w'. split_and!.
  - exact Hrun.
  - done.
  - rewrite (trace_since_app _ _ _ Htr). set_solver.
  - rewrite (trace_since_app _ _ _ Htr). set_solver.
  - rewrite Hstore. apply lookup_insert_eq.
  - done.
  - intros s Hs Hne. simpl. rewrite Hs. simpl. done.
Qed.

(** C10 at the call ["c1"], ended with status [failed]: [completed] is
    returned, [failed] is stored. *)
Lemma endCall_returned_and_stored_status_witness :
  redisUp one_call = true ∧
  pgUp one_call = true ∧
  is_Some (calls_table one_call !! "c1") ∧
  ∃ returned stored w',
    CallManager.endCall "c1" failed_data one_call = (Ok (Some returned), w') ∧
    Call.status returned = completed ∧
    calls_table w' !! "c1" = Some stored ∧
    Call.status stored = failed.
Proof.
  assert (Hup : redisUp one_call = true) by by_computation.
  assert (Hpg : pgUp one_call = true) by by_computation.
  split; [exact Hup|]. split; [exact Hpg|].
  destruct (calls_table one_call !! "c1") as [row|] eqn:Hrow;
    [|vm_compute in Hrow; discriminate Hrow].
  split; [by exists row|].
  destruct (endCall_returned_and_stored_status "c1" failed_data one_call row
              Hup Hpg Hrow)
    as (returned & stored & w' & Hrun & Hst & _ & _ & Hstored & Hss & _).
  exists returned, stored, w'. split; [exact Hrun|]. split; [exact Hst|].
  split; [exact Hstored | exact Hss].
Defined.

(* ================================================================== *)
(** * SIPService: the Terminated state                                  *)
(* ================================================================== *)

Local Arguments CallManager.endCall : simpl never.

(** C9.  For every tracked session whose call has a row in the store, with
    cache and store serving, the [Terminated] state makes the listener end
    the call: the stored call and the call handed to the listeners of
    [call:ended] have status [completed] and as duration the whole seconds
    between the handle's [startTime] and the clock reading taken by the
    listener; the handle is removed from the handle map; the call's cache
    entry and hot-set entry are gone. *)
Theorem terminated_completes_call (sessionId callId : string) (w : World)
  (sipCall : SIPCall.t) (row : Call.t) :
  redisUp w = true →
  pgUp w = true →
  sip_activeCalls w !! sessionId = Some sipCall →
  calls_table w !! callId = Some row →
  let elapsed := (clock w (ticks w) - SIPCall.startTime sipCall)%Z in
  let seconds := (elapsed / 1000)%Z in
  ∃ w' stored ended,
    SIPService.stateChange_listener sessionId callId Terminated w
      = (Ok tt, w') ∧
    (1000 * seconds ≤ elapsed < 1000 * seconds + 1000)%Z ∧
    calls_table w' !! callId = Some stored ∧
    Call.status stored = completed ∧
    Call.duration stored = seconds ∧
    Emit OfCallManager "call:ended" (PCall ended) ∈ trace_since w w' ∧
    Call.status ended = completed ∧
    Call.duration ended = seconds ∧
    sip_activeCalls w' = delete sessionId (sip_activeCalls w) ∧
    redisCalls w' !! callId = None ∧
    activeCalls w' !! callId = None.
Proof.
  intros Hup Hpg Hsip Hdb elapsed seconds.
  set (w2 := set_sip_activeCalls
               <[sessionId := SIPService.terminated_at (clock w (ticks w)) sipCall]>
               (set_ticks S w)).
  destruct (endCall_run callId (SIPService.end_data elapsed) w2 row Hup Hpg Hdb)
    as (call & w3 & pre & Ht & Hrun & Hhot & Hcache & Hstore & Htr & Htk & Hs).
  unfold SIPService.stateChange_listener. unfold_monad.
  simpl. rewrite Hsip. simpl. fold w2. fold elapsed. rewrite Hrun. simpl.
  eexists _, _, _. split; [reflexivity|]. simpl.
  rewrite Hstore, Hs, Hcache, Hhot.
  split.
  { subst seconds. pose proof (Z.div_mod elapsed 1000 ltac:(lia)).
    pose proof (Z.mod_pos_bound elapsed 1000 ltac:(lia)). lia. }
  split; [apply lookup_insert_eq|].
  do 2 (split; [done|]).
  split.
  { erewrite trace_since_app; last first.
    { simpl. rewrite Htr. simpl. rewrite <- !app_assoc. reflexivity. }
    apply elem_of_app. right.
    do 2 apply list_elem_of_further. apply list_elem_of_here. }
  do 2 (split; [done|]).
  split; [apply delete_insert_eq|].
  split; apply lookup_delete_eq.
Qed.

(** C9 on the scenario of the specification: the invitation ["H1"] created
    call ["c1"], the session was established, and [Terminated] is reported a
    little over 42 seconds after the handle's start. *)
Lemma terminated_completes_call_witness :
  redisUp established = true ∧
  pgUp established = true ∧
  is_Some (sip_activeCalls established !! "H1") ∧
  (Call.status <$> calls_table established !! "c1") = Some answered ∧
  ∃ w' stored,
    SIPService.stateChange_listener "H1" "c1" Terminated established
      = (Ok tt, w') ∧
    calls_table w' !! "c1" = Some stored ∧
    Call.status stored = completed ∧
    Call.duration stored = 42%Z ∧
    sip_activeCalls w' !! "H1" = None ∧
    redisCalls w' !! "c1" = None.
Proof.
  assert (Hup : redisUp established = true) by by_computation.
  assert (Hpg : pgUp established = true) by by_computation.
  split; [exact Hup|]. split; [exact Hpg|].
  destruct (sip_activeCalls established !! "H1") as [sipCall|] eqn:Hsip;
    [|vm_compute in Hsip; discriminate Hsip].
  split; [by exists sipCall|].
  destruct (calls_table established !! "c1") as [row|] eqn:Hrow;
    [|vm_compute in Hrow; discriminate Hrow].
  split.
  { vm_compute in Hrow. injection Hrow as <-. reflexivity. }
  destruct (terminated_completes_call "H1" "c1" established sipCall row
              Hup Hpg Hsip Hrow)
    as (w' & stored & ended & Hrun & _ & Hstored & Hst & Hdur & _ & _ & _
        & Hhandle & Hcache & _).
  exists w', stored. split; [exact Hrun|]. split; [exact Hstored|].
  split; [exact Hst|]. split.
  { rewrite Hdur. vm_compute in Hsip. injection Hsip as <-. by_computation. }
  split; [|exact Hcache]. rewrite Hhandle. apply lookup_delete_eq.
Defined.

(* ================================================================== *)
(** * WebRTCHandler: relaying                                           *)
(* ================================================================== *)

Lemma lookup_connection_eq socketId w :
  WebRTCHandler.lookup_connection socketId w
    = (Ok (connection_of socketId w), w).
Proof.
  unfold WebRTCHandler.lookup_connection, connection_of. unfold_monad.
  by destruct (socketToConnection w !! socketId).
Qed.

Lemma elem_of_recipients r room sender w :
  r ∈ WebRTCHandler.recipients room sender w ↔
  (room, r) ∈ rooms w ∧ r ≠ sender.
Proof.
  unfold WebRTCHandler.recipients. rewrite list_elem_of_fmap. split.
  - intros ([room' r'] & -> & Hin).
    apply list_elem_of_filter in Hin as [[Hroom Hne] Hin].
    apply elem_of_elements in Hin. simpl in *. by subst.
  - intros [Hin Hne]. exists (room, r). split; [done|].
    apply list_elem_of_filter. split; [done|]. by apply elem_of_elements.
Qed.

Lemma socket_emits_of_broadcast (l : list string) (ev : string)
  (msg : SocketMsg) (notification : Effect) r ev' m' :
  (∀ r0 e0 m0, notification ≠ SocketEmit r0 e0 m0) →
  SocketEmit r ev' m' ∈ ((λ r, SocketEmit r ev msg) <$> l) ++ [notification]
  ↔ ev' = ev ∧ m' = msg ∧ r ∈ l.
Proof.
  intros Hn. rewrite elem_of_app, list_elem_of_fmap, list_elem_of_singleton.
  split.
  - intros [(r0 & [= -> -> ->] & Hin) | Heq]; [done|].
    by destruct (Hn r ev' m').
  - intros (-> & -> & Hin). left. eauto.
Qed.

Lemma handleOffer_run socketId callId sdp w :
  WebRTCHandler.handleOffer socketId callId sdp w =
    match connection_of socketId w with
    | Some (cid, connection) =>
        let connection := WebRTCHandler.with_localSDP sdp connection in
        (Ok tt,
         relayed cid connection socketId (WebRTCHandler.room_of callId)
           "offer" (MsgSdp callId sdp socketId)
           (Emit OfWebRTCHandler "webrtc:offer" (PConnectionData connection sdp))
           w)
    | None => (Throw ErrConnectionNotFound, w)
    end.
Proof.
  unfold WebRTCHandler.handleOffer. unfold bind at 1.
  rewrite lookup_connection_eq.
  destruct (connection_of socketId w) as [[cid connection]|]; [|done].
  unfold relayed, WebRTCHandler.socket_to_emit. unfold_monad. simpl.
  unfold set_trace. simpl. by rewrite <- app_assoc.
Qed.

Lemma handleAnswer_run socketId callId sdp w :
  WebRTCHandler.handleAnswer socketId callId sdp w =
    match connection_of socketId w with
    | Some (cid, connection) =>
        let connection := WebRTCHandler.with_remoteSDP sdp connection in
        (Ok tt,
         relayed cid connection socketId (WebRTCHandler.room_of callId)
           "answer" (MsgSdp callId sdp socketId)
           (Emit OfWebRTCHandler "webrtc:answer" (PConnectionData connection sdp))
           w)
    | None => (Throw ErrConnectionNotFound, w)
    end.
Proof.
  unfold WebRTCHandler.handleAnswer. unfold bind at 1.
  rewrite lookup_connection_eq.
  destruct (connection_of socketId w) as [[cid connection]|]; [|done].
  unfold relayed, WebRTCHandler.socket_to_emit. unfold_monad. simpl.
  unfold set_trace. simpl. by rewrite <- app_assoc.
Qed.

Lemma handleIceCandidate_run socketId callId candidate w :
  WebRTCHandler.handleIceCandidate socketId callId candidate w =
    match connection_of socketId w with
    | Some (cid, connection) =>
        let connection := WebRTCHandler.push_candidate candidate connection in
        (Ok tt,
         relayed cid connection socketId (WebRTCHandler.room_of callId)
           "ice-candidate" (MsgCandidate callId candidate socketId)
           (Emit OfWebRTCHandler "webrtc:ice-candidate"
                 (PConnectionData connection candidate))
           w)
    | None => (Ok tt, w)
    end.
Proof.
  unfold WebRTCHandler.handleIceCandidate. unfold bind at 1.
  rewrite lookup_connection_eq.
  destruct (connection_of socketId w) as [[cid connection]|]; [|done].
  unfold relayed, WebRTCHandler.socket_to_emit. unfold_monad. simpl.
  unfold set_trace. simpl. by rewrite <- app_assoc.
Qed.

Lemma relayed_socket_emits cid connection sender callId event msg source name
  payload w r ev m :
  SocketEmit r ev m
    ∈ trace_since w
        (relayed cid connection sender (WebRTCHandler.room_of callId) event msg
                 (Emit source name payload) w)
  ↔ ev = event ∧ m = msg ∧ WebRTCHandler.in_group callId r w ∧ r ≠ sender.
Proof.
  erewrite trace_since_app; [|reflexivity].
  rewrite socket_emits_of_broadcast by done.
  unfold WebRTCHandler.in_group. rewrite elem_of_recipients. tauto.
Qed.

(** C8, at a concrete input.  ["s1"] and ["s2"] joined ["c1"], ["s3"] joined
    ["c2"].  An offer of ["s1"] that names ["c2"] is accepted and recorded
    on the connection of ["s1"], which belongs to ["c1"]; it is sent to
    ["s3"] and to nobody else.  So ["s2"], the other member of the group of
    the sender's call, does not receive it, and ["s3"], which is not in that
    group, does. *)
Lemma relay_crosses_groups_counterexample :
  let out := WebRTCHandler.handleOffer "s1" "c2" "v=0" three_sockets in
  (WebRTCConnection.callId <$> (snd <$> connection_of "s1" three_sockets))
    = Some "c1" ∧
  WebRTCHandler.in_group "c1" "s2" three_sockets ∧
  ¬ WebRTCHandler.in_group "c1" "s3" three_sockets ∧
  fst out = Ok tt ∧
  (WebRTCConnection.localSDP
     <$> (snd <$> connection_of "s1" (snd out))) = Some (Some "v=0") ∧
  List.filter
    (λ e, match e with SocketEmit _ _ _ => true | _ => false end)
    (trace_since three_sockets (snd out))
  = [SocketEmit "s3" "offer" (MsgSdp "c2" "v=0" "s1")].
Proof.
  split_and!.
  - by_computation.
  - unfold WebRTCHandler.in_group. apply (bool_decide_unpack _).
    vm_compute. exact I.
  - unfold WebRTCHandler.in_group. apply (bool_decide_unpack _).
    vm_compute. exact I.
  - by_computation.
  - by_computation.
  - by_computation.
Qed.

(** C8 as amended.  When the sending socket is mapped to a connection: an
    offer replaces that connection's [localSDP], an answer its [remoteSDP],
    a candidate is appended to its [iceCandidates]; and in each case the
    socket messages sent are exactly one message per socket in the room
    [call-<callId>] of the call the request names, other than the sender,
    carrying the call identifier, the payload and the sender's socket
    identifier as [from].  The call of the sender's connection plays no part
    in it: the receivers are the other members of the group of the sender's
    call when the request names that call, and a member of that group that
    is not in the named call's room receives nothing.  When the socket is
    mapped to no connection, the offer and the answer handler throw the
    connection-not-found error and change nothing (the candidate handler
    returns without doing anything). *)
Theorem relay_reaches_the_named_group (socketId callId payload : string)
  (w : World) :
  let addressed r := ("call-" +:+ callId, r) ∈ rooms w ∧ r ≠ socketId in
  match connection_of socketId w with
  | Some (cid, connection) =>
      (∃ w',
         WebRTCHandler.handleOffer socketId callId payload w = (Ok tt, w') ∧
         activeConnections w' =
           <[cid := WebRTCHandler.with_localSDP payload connection]>
             (activeConnections w) ∧
         ∀ r ev m,
           SocketEmit r ev m ∈ trace_since w w' ↔
           ev = "offer" ∧ m = MsgSdp callId payload socketId ∧ addressed r) ∧
      (∃ w',
         WebRTCHandler.handleAnswer socketId callId payload w = (Ok tt, w') ∧
         activeConnections w' =
           <[cid := WebRTCHandler.with_remoteSDP payload connection]>
             (activeConnections w) ∧
         ∀ r ev m,
           SocketEmit r ev m ∈ trace_since w w' ↔
           ev = "answer" ∧ m = MsgSdp callId payload socketId ∧ addressed r) ∧
      (∃ w',
         WebRTCHandler.handleIceCandidate socketId callId payload w
           = (Ok tt, w') ∧
         activeConnections w' =
           <[cid := WebRTCHandler.push_candidate payload connection]>
             (activeConnections w) ∧
         ∀ r ev m,
           SocketEmit r ev m ∈ trace_since w w' ↔
           ev = "ice-candidate" ∧ m = MsgCandidate callId payload socketId ∧
           addressed r) ∧
      (callId = WebRTCConnection.callId connection →
       ∀ r, addressed r ↔
            WebRTCHandler.in_group (WebRTCConnection.callId connection) r w ∧
            r ≠ socketId) ∧
      (∀ r, WebRTCHandler.in_group (WebRTCConnection.callId connection) r w →
            ¬ WebRTCHandler.in_group callId r w →
            ¬ addressed r) ∧
      WebRTCConnection.localSDP
        (WebRTCHandler.with_localSDP payload connection) = Some payload ∧
      WebRTCConnection.remoteSDP
        (WebRTCHandler.with_remoteSDP payload connection) = Some payload ∧
      WebRTCConnection.iceCandidates
        (WebRTCHandler.push_candidate payload connection)
        = WebRTCConnection.iceCandidates connection ++ [payload]
  | None =>
      (∃ e, WebRTCHandler.handleOffer socketId callId payload w = (Throw e, w) ∧
            is_NotFound e = true) ∧
      (∃ e, WebRTCHandler.handleAnswer socketId callId payload w = (Throw e, w) ∧
            is_NotFound e = true) ∧
      WebRTCHandler.handleIceCandidate socketId callId payload w = (Ok tt, w)
  end.
Proof.
  intros addressed.
  rewrite handleOffer_run, handleAnswer_run, handleIceCandidate_run.
  destruct (connection_of socketId w) as [[cid connection]|].
  - split_and!; try done.
    1-3: eexists; split; [reflexivity|]; split; [reflexivity|];
         intros r ev m; apply relayed_socket_emits.
    + by intros ->.
    + intros r _ Hout [Hin _]. by apply Hout.
  - split_and!; [by exists ErrConnectionNotFound .. | done].
Qed.

(** The scenario of the specification: ["s1"] and ["s2"] are in the group
    of ["c1"], ["s3"] in the group of ["c2"]; an offer of ["s1"] for ["c1"]
    is sent to ["s2"] and to nobody else, tagged with ["s1"]. *)
Example offer_reaches_only_the_other_member :
  List.filter
    (λ e, match e with SocketEmit _ _ _ => true | _ => false end)
    (trace_since three_sockets
       (snd (WebRTCHandler.handleOffer "s1" "c1" "v=0" three_sockets)))
  = [SocketEmit "s2" "offer" (MsgSdp "c1" "v=0" "s1")].
Proof. by_computation. Qed.

(* ================================================================== *)
(** * WebRTCHandler: joining                                            *)
(* ================================================================== *)

Lemma connection_id_inj callA callB socketId :
  WebRTCHandler.connection_id callA socketId
    = WebRTCHandler.connection_id callB socketId →
  callA = callB.
Proof. unfold WebRTCHandler.connection_id. apply string_app_inj_r. Qed.

(** C3, at the failing input.  After two calls were created and socket
    ["s1"] joined the first and then the second, which is a world the
    process can reach, ["s1"] is a member of both calls' groups and both
    connection records exist: the second join did not leave the first
    call. *)
Lemma one_socket_in_two_groups_counterexample :
  reachable joined_twice ∧
  WebRTCHandler.in_group "c1" "s1" joined_twice ∧
  WebRTCHandler.in_group "c2" "s1" joined_twice ∧
  "c1" ≠ "c2" ∧
  is_Some (activeConnections joined_twice
             !! WebRTCHandler.connection_id "c1" "s1") ∧
  is_Some (activeConnections joined_twice
             !! WebRTCHandler.connection_id "c2" "s1").
Proof.
  split_and!.
  - exists ticking, ids,
      ([HttpCreateCall None phone incoming; HttpCreateCall None phone outgoing]
       ++ [SockJoinCall "s1" "c1" None; SockJoinCall "s1" "c2" None]).
    unfold joined_twice, two_calls, fresh_start. by rewrite run_app.
  - unfold WebRTCHandler.in_group. apply (bool_decide_unpack _).
    vm_compute. exact I.
  - unfold WebRTCHandler.in_group. apply (bool_decide_unpack _).
    vm_compute. exact I.
  - done.
  - vm_compute. eexists. reflexivity.
  - vm_compute. eexists. reflexivity.
Qed.

(** C3, the defect in general.  [handleJoinCall] has no step that leaves a
    call.  When a socket that is in the group of one call joins a call that
    has a row in the store (cache and store serving), the join succeeds, adds
    the socket to the joined call's group and removes it from no group: it
    is then in both.  [socketToConnection], which holds one connection per
    socket, is redirected to the new connection, while the connection record
    of the first call stays in [activeConnections], where no handler reaches
    it through the socket any more. *)
Theorem join_adds_and_never_removes (socketId callA callB : string)
  (userId : option string) (w : World) (row : Call.t) :
  redisUp w = true →
  pgUp w = true →
  calls_table w !! callB = Some row →
  WebRTCHandler.in_group callA socketId w →
  ∃ w',
    WebRTCHandler.handleJoinCall socketId callB userId w = (Ok tt, w') ∧
    WebRTCHandler.in_group callA socketId w' ∧
    WebRTCHandler.in_group callB socketId w' ∧
    rooms w' = {[ (WebRTCHandler.room_of callB, socketId) ]} ∪ rooms w ∧
    socketToConnection w' =
      <[socketId := WebRTCHandler.connection_id callB socketId]>
        (socketToConnection w) ∧
    (callA ≠ callB →
     activeConnections w' !! WebRTCHandler.connection_id callA socketId
       = activeConnections w !! WebRTCHandler.connection_id callA socketId).
Proof.
  intros Hup Hpg Hdb HinA.
  destruct (getCall_resolves callB row (set_ticks S w) Hup Hpg Hdb)
    as (call & w1 & Hget & _ & Hw1).
  unfold WebRTCHandler.handleJoinCall, WebRTCHandler.in_group in *.
  unfold try_catch, bind at 1. unfold now at 1. unfold bind at 1.
  rewrite Hget.
  destruct Hw1 as [[-> Hhot] | [-> | ->]]; unfold_monad; simpl;
    (eexists; split; [reflexivity|]); simpl;
    (split_and!; [set_solver | set_solver | done | done |]);
    intros Hne; rewrite insert_insert_eq;
    apply lookup_insert_ne; intros Heq;
    apply connection_id_inj in Heq; congruence.
Qed.

(** C3, the defect at socket ["s1"], which joined ["c1"] and now joins
    ["c2"]. *)
Lemma join_adds_and_never_removes_witness :
  redisUp joined_once = true ∧
  pgUp joined_once = true ∧
  is_Some (calls_table joined_once !! "c2") ∧
  WebRTCHandler.in_group "c1" "s1" joined_once ∧
  ∃ w',
    WebRTCHandler.handleJoinCall "s1" "c2" None joined_once = (Ok tt, w') ∧
    WebRTCHandler.in_group "c1" "s1" w' ∧
    WebRTCHandler.in_group "c2" "s1" w'.
Proof.
  assert (Hup : redisUp joined_once = true) by by_computation.
  assert (Hpg : pgUp joined_once = true) by by_computation.
  assert (Hin : WebRTCHandler.in_group "c1" "s1" joined_once).
  { unfold WebRTCHandler.in_group. apply (bool_decide_unpack _).
    vm_compute. exact I. }
  split; [exact Hup|]. split; [exact Hpg|].
  destruct (calls_table joined_once !! "c2") as [row|] eqn:Hrow;
    [|vm_compute in Hrow; discriminate Hrow].
  split; [by exists row|]. split; [exact Hin|].
  destruct (join_adds_and_never_removes "s1" "c1" "c2" None joined_once row
              Hup Hpg Hrow Hin)
    as (w' & Hrun & HA & HB & _).
  exists w'. split; [exact Hrun|]. split; [exact HA | exact HB].
Defined.

(* ================================================================== *)
(** * CallManager: sessions                                             *)
(* ================================================================== *)

Ltac unfold_sessions :=
  unfold CallSessions.redis_get, CallSessions.redis_del.

Lemma getCallSession_hot sessionId session w :
  activeSessions w !! sessionId = Some session →
  CallSessions.getCallSession sessionId w = (Ok (Some session), w).
Proof.
  intros H. unfold CallSessions.getCallSession, bind, gets. by rewrite H.
Qed.

Lemma getCallSession_cache sessionId session ttl w :
  activeSessions w !! sessionId = None →
  redisUp w = true →
  redisSessions w !! sessionId = Some (session, ttl) →
  CallSessions.getCallSession sessionId w =
    (Ok (Some session),
     set_activeSessions <[sessionId := session]>
       (set_trace (λ t, t ++ [RedisGet ("session:" +:+ sessionId)]) w)).
Proof.
  intros Hhot Hup Hc. unfold CallSessions.getCallSession.
  unfold_sessions. unfold_monad.
  rewrite Hhot. simpl. rewrite Hup. simpl. by rewrite Hc.
Qed.

Lemma getCallSession_miss sessionId w :
  activeSessions w !! sessionId = None →
  redisUp w = true →
  redisSessions w !! sessionId = None →
  CallSessions.getCallSession sessionId w =
    (Ok None, set_trace (λ t, t ++ [RedisGet ("session:" +:+ sessionId)]) w).
Proof.
  intros Hhot Hup Hc. unfold CallSessions.getCallSession.
  unfold_sessions. unfold_monad.
  rewrite Hhot. simpl. rewrite Hup. simpl. by rewrite Hc.
Qed.

(** X1.  With the cache serving, [getCallSession] returns what the hot set
    holds for the identifier and otherwise what the cache holds; the cache
    is asked only on a hot-set miss, a cache hit puts the session into the
    hot set, and neither the cache nor the store of calls is written. *)
Theorem getCallSession_two_tiers (sessionId : string) (w : World) :
  redisUp w = true →
  let found :=
    (activeSessions w ∪ (fst <$> redisSessions w)) !! sessionId in
  ∃ w',
    CallSessions.getCallSession sessionId w = (Ok found, w') ∧
    (found = None ↔
       activeSessions w !! sessionId = None ∧
       redisSessions w !! sessionId = None) ∧
    trace_since w w' =
      match activeSessions w !! sessionId with
      | Some _ => []
      | None => [RedisGet ("session:" +:+ sessionId)]
      end ∧
    activeSessions w' =
      match found with
      | Some session => <[sessionId := session]> (activeSessions w)
      | None => activeSessions w
      end ∧
    redisSessions w' = redisSessions w ∧
    same_stores w w'.
Proof.
  intros Hup found. subst found.
  destruct (activeSessions w !! sessionId) as [s|] eqn:Hhot.
  { exists w. rewrite (getCallSession_hot _ _ _ Hhot).
    erewrite lookup_union_Some_l by done.
    split_and!; try done.
    - split; [done | by intros [? _]].
    - unfold trace_since. by rewrite drop_all.
    - by rewrite insert_id. }
  rewrite lookup_union_r by done. rewrite lookup_fmap.
  destruct (redisSessions w !! sessionId) as [[s ttl]|] eqn:Hc.
  - eexists. rewrite (getCallSession_cache _ _ _ _ Hhot Hup Hc).
    split_and!; try done.
    + split; [done | by intros [_ ?]].
    + by apply trace_since_app.
  - eexists. rewrite (getCallSession_miss _ _ Hhot Hup Hc).
    split_and!; try done. by apply trace_since_app.
Qed.

Lemma getCallSession_two_tiers_witness :
  redisUp one_session = true ∧
  ∃ session w',
    CallSessions.getCallSession "c1" one_session = (Ok (Some session), w') ∧
    CallSession.callId session = ghost ∧
    trace_since one_session w' = [].
Proof.
  assert (Hup : redisUp one_session = true) by by_computation.
  split; [exact Hup|].
  destruct (getCallSession_two_tiers "c1" one_session Hup)
    as (w' & Hrun & _ & Htr & _).
  destruct ((activeSessions one_session ∪ (fst <$> redisSessions one_session))
              !! "c1") as [s|] eqn:Hs;
    [|vm_compute in Hs; discriminate Hs].
  exists s, w'. split; [exact Hrun|]. split.
  - vm_compute in Hs. injection Hs as <-. reflexivity.
  - rewrite Htr. by_computation.
Defined.

(** A session that the hot set or the cache holds is found. *)
Lemma getCallSession_resolves sessionId session w :
  redisUp w = true →
  (activeSessions w ∪ (fst <$> redisSessions w)) !! sessionId = Some session →
  ∃ w1,
    CallSessions.getCallSession sessionId w = (Ok (Some session), w1) ∧
    (w1 = w ∧ activeSessions w !! sessionId = Some session ∨
     activeSessions w !! sessionId = None ∧
     w1 = set_activeSessions <[sessionId := session]>
            (set_trace (λ t, t ++ [RedisGet ("session:" +:+ sessionId)]) w)).
Proof.
  intros Hup Hfound.
  destruct (activeSessions w !! sessionId) as [s|] eqn:Hhot.
  { erewrite lookup_union_Some_l in Hfound by done. injection Hfound as ->.
    exists w. rewrite (getCallSession_hot _ _ _ Hhot). auto. }
  rewrite lookup_union_r, lookup_fmap in Hfound by done.
  destruct (redisSessions w !! sessionId) as [[s ttl]|] eqn:Hc; [|done].
  injection Hfound as ->.
  eexists. rewrite (getCallSession_cache _ _ _ _ Hhot Hup Hc). auto.
Qed.

(** X2.  With the cache serving, [updateSessionActivity] on a session the
    hot set or the cache holds returns normally and leaves that session,
    with [lastActivity] set to the clock reading and nothing else changed,
    in the hot set and in the cache (TTL 3600); every other session entry
    is untouched. *)
Theorem updateSessionActivity_refreshes (sessionId : string)
  (session : CallSession.t) (w : World) :
  redisUp w = true →
  (activeSessions w ∪ (fst <$> redisSessions w)) !! sessionId = Some session →
  let touched :=
    CallSessions.with_lastActivity (clock w (ticks w)) session in
  ∃ w',
    CallSessions.updateSessionActivity sessionId w = (Ok tt, w') ∧
    activeSessions w' = <[sessionId := touched]> (activeSessions w) ∧
    redisSessions w' = <[sessionId := (touched, 3600%Z)]> (redisSessions w) ∧
    CallSession.lastActivity touched = clock w (ticks w) ∧
    CallSession.isActive touched = CallSession.isActive session ∧
    CallSession.startTime touched = CallSession.startTime session.
Proof.
  intros Hup Hfound touched.
  destruct (getCallSession_resolves _ _ _ Hup Hfound) as (w1 & Hget & Hw1).
  unfold CallSessions.updateSessionActivity, try_catch.
  unfold bind at 1. rewrite Hget.
  destruct Hw1 as [[-> Hhot] | [Hhot ->]]; unfold_monad; simpl;
    rewrite Hup; simpl; eexists; split_and!; try done; simpl;
    by rewrite ?insert_insert_eq.
Qed.

Lemma updateSessionActivity_refreshes_witness :
  redisUp one_session = true ∧
  ∃ session w',
    (activeSessions one_session ∪ (fst <$> redisSessions one_session)) !! "c1"
      = Some session ∧
    CallSessions.updateSessionActivity "c1" one_session = (Ok tt, w') ∧
    (CallSession.lastActivity <$> activeSessions w' !! "c1")
      = Some (clock one_session (ticks one_session)).
Proof.
  assert (Hup : redisUp one_session = true) by by_computation.
  split; [exact Hup|].
  destruct ((activeSessions one_session ∪ (fst <$> redisSessions one_session))
              !! "c1") as [s|] eqn:Hs;
    [|vm_compute in Hs; discriminate Hs].
  destruct (updateSessionActivity_refreshes "c1" s one_session Hup Hs)
    as (w' & Hrun & Hhot & _).
  exists s, w'. split; [reflexivity|]. split; [exact Hrun|].
  rewrite Hhot, lookup_insert_eq. reflexivity.
Defined.

(** X3.  When the cache is out of reach, [updateSessionActivity] on a
    session of the hot set still returns normally: the failure is swallowed,
    the hot-set copy carries the new [lastActivity] and the cache keeps
    whatever it had. *)
Theorem updateSessionActivity_cache_failure (sessionId : string)
  (session : CallSession.t) (w : World) :
  redisUp w = false →
  activeSessions w !! sessionId = Some session →
  ∃ w',
    CallSessions.updateSessionActivity sessionId w = (Ok tt, w') ∧
    activeSessions w' =
      <[sessionId := CallSessions.with_lastActivity (clock w (ticks w)) session]>
        (activeSessions w) ∧
    redisSessions w' = redisSessions w.
Proof.
  intros Hdown Hhot.
  unfold CallSessions.updateSessionActivity, try_catch.
  unfold bind at 1. rewrite (getCallSession_hot _ _ _ Hhot).
  unfold_monad. simpl. rewrite Hdown. simpl. by eexists.
Qed.

Lemma updateSessionActivity_cache_failure_witness :
  redisUp (redis_down one_session) = false ∧
  is_Some (activeSessions (redis_down one_session) !! "c1") ∧
  ∃ w',
    CallSessions.updateSessionActivity "c1" (redis_down one_session)
      = (Ok tt, w') ∧
    redisSessions w' = redisSessions (redis_down one_session).
Proof.
  assert (Hdown : redisUp (redis_down one_session) = false) by by_computation.
  split; [exact Hdown|].
  destruct (activeSessions (redis_down one_session) !! "c1") as [s|] eqn:Hs;
    [|vm_compute in Hs; discriminate Hs].
  split; [by exists s|].
  destruct (updateSessionActivity_cache_failure "c1" s
              (redis_down one_session) Hdown Hs)
    as (w' & Hrun & _ & Hcache).
  exists w'. split; [exact Hrun | exact Hcache].
Defined.

(** X4.  For a session identifier that neither the hot set nor the cache
    holds (cache serving), [updateSessionActivity] and [endCallSession]
    return normally, change no session entry, write nothing to the cache and
    emit nothing: all either does is ask the cache once. *)
Theorem session_methods_ignore_unknown (sessionId : string) (w : World) :
  redisUp w = true →
  activeSessions w !! sessionId = None →
  redisSessions w !! sessionId = None →
  (∃ w',
     CallSessions.updateSessionActivity sessionId w = (Ok tt, w') ∧
     activeSessions w' = activeSessions w ∧
     redisSessions w' = redisSessions w ∧
     trace_since w w' = [RedisGet ("session:" +:+ sessionId)]) ∧
  (∃ w',
     CallSessions.endCallSession sessionId w = (Ok tt, w') ∧
     activeSessions w' = activeSessions w ∧
     redisSessions w' = redisSessions w ∧
     trace_since w w' = [RedisGet ("session:" +:+ sessionId)]).
Proof.
  intros Hup Hhot Hc. split.
  - unfold CallSessions.updateSessionActivity, try_catch.
    unfold bind at 1. rewrite (getCallSession_miss _ _ Hhot Hup Hc).
    eexists. split_and!; try done. by apply trace_since_app.
  - unfold CallSessions.endCallSession, try_catch.
    unfold bind at 1. rewrite (getCallSession_miss _ _ Hhot Hup Hc).
    eexists. split_and!; try done. by apply trace_since_app.
Qed.

Lemma session_methods_ignore_unknown_witness :
  redisUp one_session = true ∧
  activeSessions one_session !! ghost = None ∧
  redisSessions one_session !! ghost = None ∧
  ∃ w',
    CallSessions.endCallSession ghost one_session = (Ok tt, w') ∧
    activeSessions w' = activeSessions one_session.
Proof.
  assert (Hup : redisUp one_session = true) by by_computation.
  assert (Hhot : activeSessions one_session !! ghost = None)
    by by_computation.
  assert (Hc : redisSessions one_session !! ghost = None) by by_computation.
  split; [exact Hup|]. split; [exact Hhot|]. split; [exact Hc|].
  destruct (session_methods_ignore_unknown ghost one_session Hup Hhot Hc)
    as (_ & w' & Hrun & Hsame & _).
  exists w'. split; [exact Hrun | exact Hsame].
Defined.

(** What [endCallSession] does to a session of the hot set. *)
Lemma endCallSession_hot_run sessionId session w :
  redisUp w = true →
  activeSessions w !! sessionId = Some session →
  CallSessions.endCallSession sessionId w =
    (Ok tt,
     set_trace
       (λ t, t ++ [RedisDel ("session:" +:+ sessionId);
                   Emit OfCallManager "session:ended"
                        (PSession (CallSessions.deactivated session))])
       (set_activeSessions (delete sessionId)
          (set_redisSessions (delete sessionId) w))).
Proof.
  intros Hup Hhot.
  unfold CallSessions.endCallSession, try_catch.
  unfold bind at 1. rewrite (getCallSession_hot _ _ _ Hhot).
  unfold_sessions. unfold_monad. simpl. rewrite Hup. simpl.
  unfold set_trace, set_activeSessions, set_redisSessions. simpl.
  by rewrite delete_insert_eq, <- app_assoc.
Qed.

(** X5.  With the cache serving, [endCallSession] on a session the hot set
    or the cache holds returns normally, removes the session from the hot
    set and from the cache, and last emits [session:ended] with the session
    marked inactive; [getCallSession] on the identifier, run next, finds
    nothing. *)
Theorem endCallSession_ends (sessionId : string) (session : CallSession.t)
  (w : World) :
  redisUp w = true →
  (activeSessions w ∪ (fst <$> redisSessions w)) !! sessionId = Some session →
  ∃ w' w'',
    CallSessions.endCallSession sessionId w = (Ok tt, w') ∧
    activeSessions w' = delete sessionId (activeSessions w) ∧
    redisSessions w' = delete sessionId (redisSessions w) ∧
    last (trace w') =
      Some (Emit OfCallManager "session:ended"
                 (PSession (CallSessions.deactivated session))) ∧
    CallSession.isActive (CallSessions.deactivated session) = false ∧
    (∀ s, s ∈ CallManager.getActiveSessions w' ↔
          ∃ k, k ≠ sessionId ∧ activeSessions w !! k = Some s) ∧
    CallSessions.getCallSession sessionId w' = (Ok None, w'').
Proof.
  intros Hup Hfound.
  destruct (getCallSession_resolves _ _ _ Hup Hfound) as (w1 & Hget & Hw1).
  assert (∃ w',
    CallSessions.endCallSession sessionId w = (Ok tt, w') ∧
    redisUp w' = true ∧
    activeSessions w' = delete sessionId (activeSessions w) ∧
    redisSessions w' = delete sessionId (redisSessions w) ∧
    last (trace w') =
      Some (Emit OfCallManager "session:ended"
                 (PSession (CallSessions.deactivated session))))
    as (w' & Hrun & Hup' & Hhot' & Hcache' & Hlast).
  { unfold CallSessions.endCallSession, try_catch.
    unfold bind at 1. rewrite Hget.
    destruct Hw1 as [[-> Hhot] | [Hhot ->]]; unfold_sessions; unfold_monad;
      simpl; rewrite Hup; simpl; eexists; split_and!; try done; simpl;
      rewrite ?delete_insert_eq, ?last_snoc; done. }
  eexists w', _. split_and!; try done.
  - intros s. unfold CallManager.getActiveSessions. rewrite Hhot'.
    rewrite list_elem_of_fmap. split.
    + intros ([k s'] & -> & Hin). apply elem_of_map_to_list in Hin.
      apply lookup_delete_Some in Hin as [? ?]. eauto.
    + intros (k & Hk & Hs). exists (k, s). split; [done|].
      apply elem_of_map_to_list. by rewrite lookup_delete_ne.
  - apply getCallSession_miss; [|done|].
    + rewrite Hhot'. apply lookup_delete_eq.
    + rewrite Hcache'. apply lookup_delete_eq.
Qed.

Lemma endCallSession_ends_witness :
  redisUp one_session = true ∧
  ∃ session w' w'',
    (activeSessions one_session ∪ (fst <$> redisSessions one_session)) !! "c1"
      = Some session ∧
    CallSessions.endCallSession "c1" one_session = (Ok tt, w') ∧
    CallSessions.getCallSession "c1" w' = (Ok None, w'').
Proof.
  assert (Hup : redisUp one_session = true) by by_computation.
  split; [exact Hup|].
  destruct ((activeSessions one_session ∪ (fst <$> redisSessions one_session))
              !! "c1") as [s|] eqn:Hs;
    [|vm_compute in Hs; discriminate Hs].
  destruct (endCallSession_ends "c1" s one_session Hup Hs)
    as (w' & w'' & Hrun & _ & _ & _ & _ & _ & Hget).
  exists s, w', w''. split; [reflexivity|]. split; [exact Hrun | exact Hget].
Defined.

(** [endCallSession] returns normally in every world and leaves the
    environment and the hot set of calls alone. *)
Lemma endCallSession_never_throws sessionId w :
  ∃ w', CallSessions.endCallSession sessionId w = (Ok tt, w').
Proof.
  unfold CallSessions.endCallSession, try_catch.
  match goal with |- context [ match ?m w with _ => _ end ] =>
    destruct (m w) as [[[]|e] w'] end; by eexists.
Qed.

Lemma for_each_endCallSession_never_throws keys w :
  ∃ w', CallSessions.for_each keys CallSessions.endCallSession w = (Ok tt, w').
Proof.
  revert w. induction keys as [|k keys IH]; intros w; simpl.
  - by eexists.
  - unfold bind. destruct (endCallSession_never_throws k w) as [w1 ->].
    apply IH.
Qed.

(** X6.  [shutdown] returns normally in every world, whatever the cache
    does, and leaves the hot set of calls and the hot set of sessions
    empty. *)
Theorem shutdown_clears_hot_sets (w : World) :
  ∃ w',
    CallSessions.shutdown w = (Ok tt, w') ∧
    activeCalls w' = ∅ ∧
    activeSessions w' = ∅ ∧
    CallManager.getActiveCalls w' = [] ∧
    CallManager.getActiveSessions w' = [].
Proof.
  unfold CallSessions.shutdown. unfold bind at 1. unfold gets at 1.
  unfold bind at 1.
  destruct (for_each_endCallSession_never_throws
              (map_to_list (activeSessions w)).*1 w) as [w1 ->].
  unfold_monad. simpl. eexists. by split_and!.
Qed.

(** The entries of [l] that the sweep at time [t] ends, as a map. *)
Lemma sweep_loop (t : Z) (l : list (string * CallSession.t)) :
  ∀ w,
    redisUp w = true →
    NoDup l.*1 →
    (∀ k s, (k, s) ∈ l → activeSessions w !! k = Some s) →
    let stale : gmap string CallSession.t :=
      list_to_map (filter (λ e, CallSessions.is_inactive t e.2) l) in
    ∃ w',
      CallSessions.for_each l
        (λ entry,
           if CallSessions.is_inactive t (snd entry)
           then CallSessions.endCallSession (fst entry)
           else ret tt) w = (Ok tt, w') ∧
      ∀ k,
        activeSessions w' !! k =
          match stale !! k with
          | Some _ => None
          | None => activeSessions w !! k
          end ∧
        redisSessions w' !! k =
          match stale !! k with
          | Some _ => None
          | None => redisSessions w !! k
          end.
Proof.
  induction l as [|[k0 s0] l IH]; intros w Hup Hnd Hin.
  { eexists. split; [done|]. intros k. simpl. by rewrite lookup_empty. }
  rewrite fmap_cons in Hnd. apply NoDup_cons in Hnd as [Hk0 Hnd].
  cbn [CallSessions.for_each fst snd]. unfold bind.
  destruct (CallSessions.is_inactive t s0) eqn:Hstale.
  - rewrite (endCallSession_hot_run k0 s0 w Hup)
      by (apply Hin; left).
    rewrite filter_cons_True by (simpl; by rewrite Hstale).
    edestruct IH as (w' & -> & Hw'); [| exact Hnd | |].
    { exact Hup. }
    { intros k s Hks. simpl. rewrite lookup_delete_ne.
      - apply Hin. by right.
      - intros <-. apply Hk0. apply list_elem_of_fmap. by exists (k0, s). }
    exists w'. split; [done|]. intros k. destruct (Hw' k) as [Ha Hr].
    rewrite Ha, Hr. cbn [list_to_map foldr fst snd activeSessions
      redisSessions set_trace set_activeSessions set_redisSessions].
    destruct (decide (k = k0)) as [->|Hne].
    + rewrite lookup_insert_eq, !lookup_delete_eq.
      split; by case_match.
    + by rewrite lookup_insert_ne, !lookup_delete_ne.
  - unfold ret at 1.
    rewrite filter_cons_False by (cbn [snd]; rewrite Hstale; exact id).
    edestruct IH as (w' & -> & Hw'); [exact Hup | exact Hnd | |].
    { intros k s Hks. apply Hin. by right. }
    by exists w'.
Qed.

Lemma visited_sublist (textual : gset string)
  (l : list (string * CallSession.t)) :
  CallSessions.visited textual l `sublist_of` l.
Proof.
  induction l as [|e l IH]; simpl; [done|].
  destruct (decide (e.1 ∈ textual)); [apply sublist_nil_l|].
  by apply sublist_skip.
Qed.

Lemma visited_not_textual (textual : gset string)
  (l : list (string * CallSession.t)) (e : string * CallSession.t) :
  e ∈ CallSessions.visited textual l → e.1 ∉ textual.
Proof.
  induction l as [|e0 l IH]; simpl; [by intros ?%elem_of_nil|].
  destruct (decide (e0.1 ∈ textual)); [by intros ?%elem_of_nil|].
  intros [->|Hin]%elem_of_cons; [done | by apply IH].
Qed.

Lemma visited_all (textual : gset string)
  (l : list (string * CallSession.t)) :
  (∀ e, e ∈ l → e.1 ∉ textual) → CallSessions.visited textual l = l.
Proof.
  induction l as [|e l IH]; intros Hl; simpl; [done|].
  rewrite decide_False by (apply Hl; left).
  f_equal. apply IH. intros e' He'. apply Hl. by right.
Qed.

(** X7.  [textual] names the hot-set sessions whose [lastActivity] is a
    string (sessions parsed from the cache and not touched since).  With the
    cache serving, [cleanupInactiveSessions] returns normally, and a session
    entry it changes is one of a session that is not in [textual] and whose
    last activity lies more than 30 minutes (1,800,000 ms) before the clock
    reading taken at the start: that session leaves the hot set and the
    cache; a session in [textual] is never ended.  When no session of the
    hot set is in [textual], it ends exactly the sessions idle for more
    than 30 minutes (one idle for exactly 30 minutes is kept) and leaves
    every other entry as it was.  When all of them are in [textual], it
    ends none. *)
Theorem cleanupInactiveSessions_removes_idle (textual : gset string)
  (w : World) :
  redisUp w = true →
  let started := clock w (ticks w) in
  let idle (s : CallSession.t) : bool :=
    bool_decide (started - CallSession.lastActivity s > 1800000)%Z in
  ∃ w',
    CallSessions.cleanupInactiveSessions textual w = (Ok tt, w') ∧
    (∀ sessionId,
       (activeSessions w' !! sessionId = activeSessions w !! sessionId ∧
        redisSessions w' !! sessionId = redisSessions w !! sessionId) ∨
       ((sessionId ∉ textual) ∧
        (∃ s, activeSessions w !! sessionId = Some s ∧ idle s = true ∧
              activeSessions w' !! sessionId = None ∧
              redisSessions w' !! sessionId = None))) ∧
    ((∀ sessionId, sessionId ∈ textual →
                   activeSessions w !! sessionId = None) →
     ∀ sessionId,
       activeSessions w' !! sessionId =
         match activeSessions w !! sessionId with
         | Some s => if idle s then None else Some s
         | None => None
         end ∧
       redisSessions w' !! sessionId =
         match activeSessions w !! sessionId with
         | Some s => if idle s then None else redisSessions w !! sessionId
         | None => redisSessions w !! sessionId
         end) ∧
    ((∀ sessionId, is_Some (activeSessions w !! sessionId) →
                   sessionId ∈ textual) →
     activeSessions w' = activeSessions w ∧
     redisSessions w' = redisSessions w).
Proof.
  intros Hup started idle.
  unfold CallSessions.cleanupInactiveSessions, try_catch.
  unfold bind at 1. unfold now at 1. unfold bind at 1. unfold gets at 1.
  simpl. fold started.
  set (l := map_to_list (activeSessions w)).
  set (v := CallSessions.visited textual l).
  assert (Hsub : v `sublist_of` l) by apply visited_sublist.
  assert (Hndv : NoDup v.*1).
  { eapply sublist_NoDup; [apply (NoDup_fst_map_to_list (activeSessions w))|].
    by apply fmap_sublist. }
  assert (Hv : ∀ k s, (k, s) ∈ v → activeSessions w !! k = Some s).
  { intros k s Hks. apply elem_of_map_to_list.
    eapply elem_of_sublist; [exact Hks | exact Hsub]. }
  destruct (sweep_loop started v (set_ticks S w) Hup Hndv Hv)
    as (w' & -> & Hw').
  exists w'. split; [done|].
  set (stale := filter (λ e, CallSessions.is_inactive started e.2) v) in *.
  assert (Hnd : NoDup stale.*1).
  { eapply sublist_NoDup; [exact Hndv|]. apply fmap_sublist, sublist_filter. }
  assert (Hstale : ∀ k s,
            list_to_map (M := gmap string CallSession.t) stale !! k = Some s ↔
            (k, s) ∈ v ∧ idle s = true).
  { intros k s. rewrite <- elem_of_list_to_map by done.
    unfold stale. rewrite list_elem_of_filter. simpl.
    unfold CallSessions.is_inactive, CallSessions.inactiveThreshold, idle.
    change (30 * 60 * 1000)%Z with 1800000%Z.
    rewrite Is_true_true. tauto. }
  split_and!.
  - intros k. destruct (Hw' k) as [Ha Hr]. simpl in Ha, Hr.
    destruct (list_to_map stale !! k) as [s|] eqn:Hk.
    + right. apply Hstale in Hk as [Hin Hidle]. split.
      * apply (visited_not_textual textual l (k, s) Hin).
      * exists s. split_and!; [by apply Hv | done..].
    + by left.
  - intros Hnone k.
    assert (v = l) as Hvl.
    { apply visited_all. intros [k' s'] Hin Htext.
      apply elem_of_map_to_list in Hin. rewrite (Hnone k' Htext) in Hin.
      discriminate Hin. }
    destruct (Hw' k) as [Ha Hr]. rewrite Ha, Hr. simpl.
    destruct (list_to_map stale !! k) as [s'|] eqn:Hk.
    + apply Hstale in Hk as [Hin Hidle]. by rewrite (Hv _ _ Hin), Hidle.
    + destruct (activeSessions w !! k) as [s|] eqn:Hs; [|done].
      destruct (idle s) eqn:Hidle; [|done].
      assert ((k, s) ∈ v) as Hin
        by (rewrite Hvl; by apply elem_of_map_to_list).
      pose proof (proj2 (Hstale k s) (conj Hin Hidle)) as Hc.
      rewrite Hk in Hc. discriminate Hc.
  - intros Hall.
    assert (v = []) as Hvnil.
    { unfold v. destruct l as [|[k s] l'] eqn:Hl; [done|]. simpl.
      rewrite decide_True; [done|]. apply Hall. exists s.
      apply elem_of_map_to_list. fold l. rewrite Hl. left. }
    assert (∀ k, list_to_map (M := gmap string CallSession.t) stale !! k
                 = None) as Hempty.
    { intros k. unfold stale. by rewrite Hvnil. }
    split; apply map_eq; intros k; destruct (Hw' k) as [Ha Hr];
      rewrite ?Ha, ?Hr, Hempty; done.
Qed.

(** The session created 31 minutes ago is swept when its [lastActivity] is
    the [Date] [createCallSession] gave it (no session of the hot set is
    named as carrying a string); it is kept when its [lastActivity] is a
    string. *)
Lemma cleanupInactiveSessions_removes_idle_witness :
  redisUp idle_session = true ∧
  is_Some (activeSessions idle_session !! "c1") ∧
  (∃ w',
     CallSessions.cleanupInactiveSessions {[ "c9" ]} idle_session
       = (Ok tt, w') ∧
     activeSessions w' !! "c1" = None ∧
     redisSessions w' !! "c1" = None) ∧
  (∃ w',
     CallSessions.cleanupInactiveSessions {[ "c1" ]} idle_session
       = (Ok tt, w') ∧
     activeSessions w' !! "c1" = activeSessions idle_session !! "c1").
Proof.
  assert (Hup : redisUp idle_session = true) by by_computation.
  split; [exact Hup|].
  destruct (activeSessions idle_session !! "c1") as [s|] eqn:Hs;
    [|vm_compute in Hs; discriminate Hs].
  split; [by exists s|].
  split.
  - destruct (cleanupInactiveSessions_removes_idle {[ "c9" ]} idle_session
                Hup) as (w' & Hrun & _ & Hw' & _).
    exists w'. split; [exact Hrun|].
    assert (Hnone : ∀ sessionId : string,
              sessionId ∈ ({[ "c9" ]} : gset string) →
              activeSessions idle_session !! sessionId = None).
    { intros k ->%elem_of_singleton. by_computation. }
    destruct (Hw' Hnone "c1") as [Ha Hr]. rewrite Ha, Hr, Hs.
    vm_compute in Hs. injection Hs as <-.
    split; by_computation.
  - destruct (cleanupInactiveSessions_removes_idle {[ "c1" ]} idle_session
                Hup) as (w' & Hrun & Hsafe & _).
    exists w'. split; [exact Hrun|].
    destruct (Hsafe "c1") as [[Ha _] | [Hout _]];
      [rewrite Ha; exact Hs|].
    exfalso. apply Hout. by apply elem_of_singleton.
Defined.

(* ================================================================== *)
(** * CallManager: when a collaborator fails                            *)
(* ================================================================== *)

(** X8.  When the store is out of reach, [updateCallStatus] on a call of
    the hot set throws, but the hot-set copy already carries the requested
    status and the new [updatedAt]: the cache and the store keep what they
    had, no [call:statusUpdated] is emitted, and [getCall], run next, returns
    the call with the status that was never stored. *)
Theorem updateCallStatus_store_failure (callId : string)
  (status : CallStatus) (call : Call.t) (w : World) :
  pgUp w = false →
  activeCalls w !! callId = Some call →
  let updated := CallManager.with_status status (clock w (ticks w)) call in
  ∃ w',
    CallManager.updateCallStatus callId status w = (Throw ErrPostgres, w') ∧
    activeCalls w' = <[callId := updated]> (activeCalls w) ∧
    redisCalls w' = redisCalls w ∧
    calls_table w' = calls_table w ∧
    trace_since w w' = [PgUpdate callId (CallManager.only_status status)] ∧
    CallManager.getCall callId w' = (Ok (Some updated), w').
Proof.
  intros Hdown Hhot updated.
  unfold CallManager.updateCallStatus. unfold bind at 1.
  rewrite (getCall_hot _ _ _ Hhot). unfold_monad. simpl. rewrite Hdown.
  eexists. split_and!; try done.
  - by apply trace_since_app.
  - apply getCall_hot. simpl. apply lookup_insert_eq.
Qed.

Lemma updateCallStatus_store_failure_witness :
  pgUp (pg_down one_call) = false ∧
  is_Some (activeCalls (pg_down one_call) !! "c1") ∧
  ∃ w' call,
    CallManager.updateCallStatus "c1" answered (pg_down one_call)
      = (Throw ErrPostgres, w') ∧
    CallManager.getCall "c1" w' = (Ok (Some call), w') ∧
    Call.status call = answered ∧
    (Call.status <$> calls_table w' !! "c1") = Some initiated.
Proof.
  assert (Hdown : pgUp (pg_down one_call) = false) by by_computation.
  split; [exact Hdown|].
  destruct (activeCalls (pg_down one_call) !! "c1") as [c|] eqn:Hc;
    [|vm_compute in Hc; discriminate Hc].
  split; [by exists c|].
  destruct (updateCallStatus_store_failure "c1" answered c (pg_down one_call)
              Hdown Hc)
    as (w' & Hrun & _ & _ & Hstore & _ & Hget).
  eexists w', _. split; [exact Hrun|]. split; [exact Hget|].
  split; [reflexivity|]. rewrite Hstore. by_computation.
Defined.

(** X9.  When the store is out of reach, [endCall] on a call of the hot set
    throws and removes nothing: the call stays in the hot set, now with the
    supplied fields merged in and status [completed], so [getActiveCalls]
    lists a completed call; the cache entry and the stored row are
    untouched and no [call:ended] is emitted. *)
Theorem endCall_store_failure (callId : string) (endData : PartialCall.t)
  (call : Call.t) (w : World) :
  pgUp w = false →
  activeCalls w !! callId = Some call →
  let ended :=
    CallManager.with_status completed (clock w (ticks w))
      (CallManager.Object_assign call endData) in
  ∃ w',
    CallManager.endCall callId endData w = (Throw ErrPostgres, w') ∧
    activeCalls w' = <[callId := ended]> (activeCalls w) ∧
    Call.status ended = completed ∧
    ended ∈ CallManager.getActiveCalls w' ∧
    redisCalls w' = redisCalls w ∧
    calls_table w' = calls_table w ∧
    trace_since w w' = [PgUpdate callId endData].
Proof.
  intros Hdown Hhot ended.
  unfold CallManager.endCall. unfold bind at 1.
  rewrite (getCall_hot _ _ _ Hhot). unfold_monad. simpl. rewrite Hdown.
  eexists. split_and!; try done.
  - unfold CallManager.getActiveCalls. simpl.
    apply list_elem_of_fmap. exists (callId, ended). split; [done|].
    apply elem_of_map_to_list, lookup_insert_eq.
  - by apply trace_since_app.
Qed.

Lemma endCall_store_failure_witness :
  pgUp (pg_down one_call) = false ∧
  is_Some (activeCalls (pg_down one_call) !! "c1") ∧
  ∃ w' call,
    CallManager.endCall "c1" (end_body 42) (pg_down one_call)
      = (Throw ErrPostgres, w') ∧
    call ∈ CallManager.getActiveCalls w' ∧
    Call.status call = completed.
Proof.
  assert (Hdown : pgUp (pg_down one_call) = false) by by_computation.
  split; [exact Hdown|].
  destruct (activeCalls (pg_down one_call) !! "c1") as [c|] eqn:Hc;
    [|vm_compute in Hc; discriminate Hc].
  split; [by exists c|].
  destruct (endCall_store_failure "c1" (end_body 42) c (pg_down one_call)
              Hdown Hc)
    as (w' & Hrun & _ & Hst & Hin & _).
  eexists w', _. split; [exact Hrun|]. split; [exact Hin | exact Hst].
Defined.

(** X10.  When the store accepts the row and the cache is out of reach,
    [createCall] throws although the call is stored: the row is in the
    table, the hot set and the cache do not have the call, and no
    [call:created] is emitted. *)
Theorem createCall_cache_failure (draft : PartialCall.t) (w : World) :
  valid_draft draft →
  pgUp w = true →
  redisUp w = false →
  calls_table w !! uuids w (uuidCount w) = None →
  ∃ w' row,
    CallManager.createCall draft w = (Throw ErrRedis, w') ∧
    calls_table w' = <[uuids w (uuidCount w) := row]> (calls_table w) ∧
    Call.id row = uuids w (uuidCount w) ∧
    Call.status row = initiated ∧
    activeCalls w' = activeCalls w ∧
    redisCalls w' = redisCalls w ∧
    trace_since w w' =
      [PgInsert (uuids w (uuidCount w));
       RedisSet ("call:" +:+ uuids w (uuidCount w)) 3600].
Proof.
  intros ([phone Hphone] & [dir Hdir] & Hid & Hst & Hdur & Hc & Hu)
         Hpg Hdown Hfresh.
  unfold CallManager.createCall, CallManager.build_call. unfold_monad.
  simpl. rewrite Hphone, Hdir, Hid, Hdur, Hc, Hu. simpl.
  rewrite Hpg. simpl. rewrite Hfresh. simpl. rewrite Hdown.
  eexists _, _. split_and!; try done.
  - simpl. by destruct Hst as [-> | ->].
  - apply trace_since_app. simpl. by rewrite <- app_assoc.
Qed.

Lemma createCall_cache_failure_witness :
  valid_draft (create_body None phone incoming) ∧
  pgUp (redis_down fresh_start) = true ∧
  redisUp (redis_down fresh_start) = false ∧
  calls_table (redis_down fresh_start)
    !! uuids (redis_down fresh_start) (uuidCount (redis_down fresh_start))
    = None ∧
  ∃ w',
    CallManager.createCall (create_body None phone incoming)
      (redis_down fresh_start) = (Throw ErrRedis, w') ∧
    is_Some (calls_table w' !! "c1") ∧
    activeCalls w' !! "c1" = None.
Proof.
  assert (Hvalid : valid_draft (create_body None phone incoming)).
  { unfold valid_draft. simpl. repeat split; eauto. }
  assert (Hpg : pgUp (redis_down fresh_start) = true) by by_computation.
  assert (Hdown : redisUp (redis_down fresh_start) = false)
    by by_computation.
  assert (Hfresh : calls_table (redis_down fresh_start)
    !! uuids (redis_down fresh_start) (uuidCount (redis_down fresh_start))
    = None) by by_computation.
  split; [exact Hvalid|]. split; [exact Hpg|]. split; [exact Hdown|].
  split; [exact Hfresh|].
  destruct (createCall_cache_failure (create_body None phone incoming)
              (redis_down fresh_start) Hvalid Hpg Hdown Hfresh)
    as (w' & row & Hrun & Hstore & _ & _ & Hhot & _).
  exists w'. split; [exact Hrun|]. rewrite Hstore, Hhot. split.
  - exists row. by_computation.
  - by_computation.
Defined.

(* ================================================================== *)
(** * DatabaseService                                                   *)
(* ================================================================== *)

(** X11.  The INSERT of [createCall] is given [null] in place of an empty
    optional text and in place of a confidence score of 0 ([x || null]).
    With the store serving and the identifier new, the row is added under
    the call's identifier; of client, recording, transcript and summary it
    holds a value exactly when the call has a non-empty one, and that value;
    it holds a confidence score exactly when the call has one other than 0;
    identifier, phone number, direction, status, duration, sentiment and the
    two dates are the call's.  With the identifier already in the table the
    INSERT is refused and the table is left as it was. *)
Theorem createCall_nulls_falsy_fields (call : Call.t) (w : World) :
  pgUp w = true →
  let text_sent (field : Call.t → option string) (row : Call.t) :=
    ∀ s, field row = Some s ↔ field call = Some s ∧ s ≠ "" in
  match calls_table w !! Call.id call with
  | None =>
      ∃ w' row,
        DatabaseService.createCall call w = (Ok tt, w') ∧
        calls_table w' = <[Call.id call := row]> (calls_table w) ∧
        text_sent Call.clientId row ∧
        text_sent Call.recordingUrl row ∧
        text_sent Call.transcript row ∧
        text_sent Call.summary row ∧
        (is_Some (Call.confidenceScore row) ↔
           is_Some (Call.confidenceScore call) ∧
           Call.confidenceScore call ≠ Some 0%Z) ∧
        Call.id row = Call.id call ∧
        Call.phoneNumber row = Call.phoneNumber call ∧
        Call.direction row = Call.direction call ∧
        Call.status row = Call.status call ∧
        Call.duration row = Call.duration call ∧
        Call.sentiment row = Call.sentiment call ∧
        Call.createdAt row = Call.createdAt call ∧
        Call.updatedAt row = Call.updatedAt call
  | Some _ =>
      ∃ w',
        DatabaseService.createCall call w = (Throw ErrPostgres, w') ∧
        calls_table w' = calls_table w
  end.
Proof.
  intros Hpg text_sent.
  unfold DatabaseService.createCall, DatabaseService.connect.
  unfold_monad. simpl. rewrite Hpg. simpl.
  destruct (calls_table w !! Call.id call) as [old|]; simpl;
    [by eexists|].
  assert (Htext : ∀ field : Call.t → option string,
            ∀ s, DatabaseService.or_null_string (field call) = Some s ↔
                 field call = Some s ∧ s ≠ "").
  { intros field s. unfold DatabaseService.or_null_string.
    destruct (field call) as [t|]; [|naive_solver].
    case_decide; naive_solver. }
  eexists _, _. split; [reflexivity|]. split; [reflexivity|].
  unfold text_sent. simpl.
  split; [apply (Htext Call.clientId)|].
  split; [apply (Htext Call.recordingUrl)|].
  split; [apply (Htext Call.transcript)|].
  split; [apply (Htext Call.summary)|].
  split; [|done].
  unfold DatabaseService.or_null_number.
  destruct (Call.confidenceScore call) as [n|].
  - case_decide; split.
    + by intros [? ?].
    + intros [_ Hn]. by subst.
    + intros _. split; [by eexists | congruence].
    + by eexists.
  - split; [by intros [? ?] | by intros [[? ?] _]].
Qed.

Lemma createCall_nulls_falsy_fields_witness :
  pgUp fresh_start = true ∧
  calls_table fresh_start !! "c9" = None ∧
  ∃ w' stored,
    DatabaseService.createCall
      (Call.mk "c9" (Some "") phone incoming initiated 0 None None None None
               (Some 0%Z) 1 1) fresh_start = (Ok tt, w') ∧
    calls_table w' !! "c9" = Some stored ∧
    Call.clientId stored = None ∧
    Call.confidenceScore stored = None.
Proof.
  assert (Hpg : pgUp fresh_start = true) by by_computation.
  assert (Hfresh : calls_table fresh_start !! "c9" = None) by by_computation.
  split; [exact Hpg|]. split; [exact Hfresh|].
  pose proof (createCall_nulls_falsy_fields
                (Call.mk "c9" (Some "") phone incoming initiated 0 None None
                         None None (Some 0%Z) 1 1) fresh_start Hpg) as H.
  cbv zeta in H. cbn [Call.id] in H. rewrite Hfresh in H.
  destruct H as (w' & row & Hrun & Htable & Hclient & _ & _ & _ & Hscore & _).
  exists w', row. split; [exact Hrun|].
  split; [rewrite Htable; apply lookup_insert_eq|].
  split.
  - apply eq_None_not_Some. intros [s Hs].
    apply Hclient in Hs as [[= <-] Hne]. done.
  - apply eq_None_not_Some. intros Hn.
    apply Hscore in Hn as [_ Hne]. done.
Defined.

(** X12.  [updateCall] never adds or removes a row and never changes a row
    other than the one it is called for; of that row it leaves identifier,
    client, phone number, direction and creation time as they were.  This
    holds whether or not the store serves and whether or not the row
    exists. *)
Theorem updateCall_keeps_identity (callId : string)
  (updates : PartialCall.t) (w : World) :
  let w' := snd (DatabaseService.updateCall callId updates w) in
  dom (calls_table w') = dom (calls_table w) ∧
  ∀ k row',
    calls_table w' !! k = Some row' →
    ∃ row,
      calls_table w !! k = Some row ∧
      (k ≠ callId → row' = row) ∧
      Call.id row' = Call.id row ∧
      Call.clientId row' = Call.clientId row ∧
      Call.phoneNumber row' = Call.phoneNumber row ∧
      Call.direction row' = Call.direction row ∧
      Call.createdAt row' = Call.createdAt row.
Proof.
  unfold DatabaseService.updateCall, DatabaseService.connect.
  unfold_monad. simpl.
  destruct (pgUp w); simpl.
  2: { split; [done|]. intros k row' ->. by eexists. }
  destruct (calls_table w !! callId) as [row|] eqn:Hrow; simpl.
  2: { split; [done|]. intros k row' ->. by eexists. }
  split.
  - rewrite dom_insert_L. apply elem_of_dom_2 in Hrow. set_solver.
  - intros k row' Hk. destruct (decide (k = callId)) as [->|Hne].
    + rewrite lookup_insert_eq in Hk. apply (inj Some) in Hk as <-.
      exists row. by split_and!.
    + rewrite lookup_insert_ne in Hk by done. exists row'. by split_and!.
Qed.

(* ================================================================== *)
(** * RedisService: the reconnect strategy                              *)
(* ================================================================== *)

(** X13.  [reconnectStrategy] gives up exactly when more than ten retries
    were made; every delay it returns is [retries * 50] and at most 500
    milliseconds, so the cap of 1000 in [Math.min] is never what it
    returns. *)
Theorem reconnectStrategy_delay (retries : Z) :
  (reconnectStrategy retries = None ↔ (10 < retries)%Z) ∧
  ∀ delay,
    reconnectStrategy retries = Some delay →
    delay = (retries * 50)%Z ∧ (delay ≤ 500)%Z ∧ delay ≠ 1000%Z.
Proof.
  unfold reconnectStrategy.
  destruct (Z.gtb_spec retries 10) as [Hgt | Hle].
  - split; [split; [lia | done] | intros delay [=]].
  - split; [split; [done | lia] | intros delay [= <-]; lia].
Qed.

(* ================================================================== *)
(** * GET /calls: pagination                                            *)
(* ================================================================== *)

Lemma slice_page {A} (xs : list A) (p l : Z) :
  (1 ≤ p)%Z → (1 ≤ l)%Z →
  CallRoutes.slice xs ((p - 1) * l) ((p - 1) * l + l)
    = take (Z.to_nat l) (drop (Z.to_nat ((p - 1) * l)) xs).
Proof.
  intros Hp Hl. unfold CallRoutes.slice, CallRoutes.slice_index.
  set (start := ((p - 1) * l)%Z).
  assert (0 ≤ start)%Z by (subst start; nia).
  destruct (Z.ltb_spec start 0) as [?|_]; [lia|].
  destruct (Z.ltb_spec (start + l) 0) as [?|_]; [lia|].
  destruct (Z.le_gt_cases start (Z.of_nat (length xs))) as [Hin | Hout].
  - rewrite (Z.min_l start) by done.
    destruct (Z.le_gt_cases (start + l) (Z.of_nat (length xs)))
      as [Hfull | Hshort].
    + rewrite Z.min_l by done. f_equal. lia.
    + rewrite Z.min_r by lia.
      rewrite !take_ge; [done | |]; rewrite length_drop; lia.
  - rewrite !Z.min_r by lia. rewrite Z.sub_diag. simpl.
    rewrite (drop_ge xs (Z.to_nat start)) by lia. by rewrite take_nil.
Qed.

Lemma ceil_div_le (a b m : Z) :
  (0 < b)%Z → (CallRoutes.ceil_div a b ≤ m ↔ a ≤ m * b)%Z.
Proof.
  intros Hb. unfold CallRoutes.ceil_div.
  pose proof (Z.div_mod (- a) b ltac:(lia)).
  pose proof (Z.mod_pos_bound (- a) b Hb).
  split; intros; nia.
Qed.

Lemma concat_pages {A} (xs : list A) (L n : nat) :
  concat ((λ p, take L (drop ((p - 1) * L) xs)) <$> seq 1 n)
    = take (n * L) xs.
Proof.
  induction n as [|n IH]; [done|].
  rewrite seq_S, fmap_app, concat_app, IH. simpl.
  rewrite app_nil_r, Nat.sub_0_r, take_take_drop. f_equal. lia.
Qed.

(** X14.  With a limit of at least 1, the pages of [GET /calls] cut the
    list of active calls into consecutive pieces: a page has at most [limit]
    calls, page [p] is empty exactly when [p] is beyond the reported number
    of pages, the reported total is the length of the list, and pages 1 to
    [pages], put one after the other, are the list itself. *)
Theorem list_calls_pages (calls : list Call.t) (limit : Z) :
  (1 ≤ limit)%Z →
  let response p := CallRoutes.list_calls (Some p) (Some limit) calls in
  ∃ pages : nat,
    (∀ p, (1 ≤ p)%Z →
       CallRoutes.pages (snd (response p)) = Z.of_nat pages ∧
       CallRoutes.total (snd (response p)) = Z.of_nat (length calls) ∧
       (Z.of_nat (length (fst (response p))) ≤ limit)%Z ∧
       (fst (response p) = [] ↔ (Z.of_nat pages < p)%Z)) ∧
    concat ((λ p, fst (response (Z.of_nat p))) <$> seq 1 pages) = calls.
Proof.
  intros Hl response.
  set (n := CallRoutes.ceil_div (Z.of_nat (length calls)) limit).
  assert (Hn : (0 ≤ n)%Z).
  { destruct (Z.le_gt_cases 0 n) as [|Hneg]; [done|].
    assert (n ≤ -1)%Z as Hle by lia.
    apply ceil_div_le in Hle; lia. }
  assert (Hpage : ∀ p, (1 ≤ p)%Z →
            fst (response p)
              = take (Z.to_nat limit)
                     (drop (Z.to_nat ((p - 1) * limit)) calls)).
  { intros p Hp. subst response. unfold CallRoutes.list_calls,
      CallRoutes.or_fallback. simpl.
    rewrite !decide_False by lia. by apply slice_page. }
  exists (Z.to_nat n). split.
  - intros p Hp. rewrite (Hpage p Hp).
    subst response. unfold CallRoutes.list_calls, CallRoutes.or_fallback.
    simpl. rewrite !decide_False by lia. simpl. fold n.
    split; [lia|]. split; [done|]. split.
    { rewrite length_take. lia. }
    rewrite Z2Nat.id by done.
    assert (n < p ↔ Z.of_nat (length calls) ≤ (p - 1) * limit)%Z as ->.
    { rewrite <- (ceil_div_le _ limit) by lia. fold n. lia. }
    split.
    + intros Hnil. apply (f_equal length) in Hnil.
      rewrite length_take, length_drop in Hnil. simpl in Hnil. nia.
    + intros Hbeyond. rewrite drop_ge by nia. by rewrite take_nil.
  - transitivity
      (concat ((λ p, take (Z.to_nat limit)
                       (drop ((p - 1) * Z.to_nat limit) calls))
                 <$> seq 1 (Z.to_nat n))).
    { f_equal. apply list_fmap_ext. intros i p Hi.
      apply lookup_seq in Hi as [-> _]. rewrite Hpage by lia.
      do 2 f_equal. nia. }
    rewrite (concat_pages calls (Z.to_nat limit) (Z.to_nat n)).
    apply take_ge.
    assert (Z.of_nat (length calls) ≤ n * limit)%Z
      by (apply ceil_div_le; [lia | done]).
    nia.
Qed.

Lemma list_calls_pages_witness :
  (1 ≤ 2)%Z ∧
  ∃ pages : nat,
    (∀ p, (1 ≤ p)%Z →
       (fst (CallRoutes.list_calls (Some p) (Some 2%Z)
               (CallManager.getActiveCalls two_calls)) = []
        ↔ (Z.of_nat pages < p)%Z)) ∧
    concat ((λ p, fst (CallRoutes.list_calls (Some (Z.of_nat p)) (Some 2%Z)
                         (CallManager.getActiveCalls two_calls)))
              <$> seq 1 pages)
      = CallManager.getActiveCalls two_calls.
Proof.
  split; [lia|].
  destruct (list_calls_pages (CallManager.getActiveCalls two_calls) 2
              ltac:(lia)) as (pages & Hall & Hcat).
  exists pages. split; [|exact Hcat].
  intros p Hp. apply (Hall p Hp).
Defined.

(* ================================================================== *)
(** * DatabaseService.updateCall: the statement it builds               *)
(* ================================================================== *)

(** X15.  The UPDATE statement [updateCall] builds is well formed and means
    what the call asks for: its SET parts use the placeholders 1, 2, ... in
    order, the placeholder of [WHERE id] is the next one and is bound to the
    call identifier, there is one value per placeholder, and carrying out the
    SET list on a row gives that row with the fields present in [updates]
    replaced and [updated_at] set to the new timestamp. *)
Theorem updateCall_statement (callId : string) (updates : PartialCall.t)
  (stamp : Z) (row : Call.t) :
  let q := UpdateQuery.build callId updates stamp in
  UpdateQuery.execute q row
    = Some (DatabaseService.apply_updates updates stamp row) ∧
  (snd <$> UpdateQuery.setParts q)
    = seq 1 (length (UpdateQuery.setParts q)) ∧
  UpdateQuery.paramIndex q = S (length (UpdateQuery.setParts q)) ∧
  length (UpdateQuery.values q) = UpdateQuery.paramIndex q ∧
  UpdateQuery.bound q (UpdateQuery.paramIndex q)
    = Some (UpdateQuery.VText callId).
Proof.
  assert (Hunion : ∀ A (o o' : option A),
            o ∪ o' = match o with Some x => Some x | None => o' end)
    by (by intros A [x|] [y|]).
  unfold DatabaseService.apply_updates. rewrite !Hunion.
  destruct row as [id cl ph dir st du rec tr su se co cr up].
  destruct updates as [uid ucl uph udir ust udu urec utr usu use uco ucr uup].
  destruct ust, udu, urec, utr, usu, use, uco;
    repeat split; reflexivity.
Qed.

(* ================================================================== *)
(** * WebRTCHandler: joining and leaving                                *)
(* ================================================================== *)

Lemma string_app_inj_l (s t1 t2 : string) : s +:+ t1 = s +:+ t2 → t1 = t2.
Proof.
  induction s as [|a s IH]; intros H; [exact H|]. apply IH.
  change (String a (s +:+ t1) = String a (s +:+ t2)) in H. congruence.
Qed.

Lemma room_of_inj (callA callB : string) :
  WebRTCHandler.room_of callA = WebRTCHandler.room_of callB → callA = callB.
Proof. unfold WebRTCHandler.room_of. apply string_app_inj_l. Qed.

(** X16.  Joining a call that none of the tiers holds (cache and store
    serving) throws the call-not-found error after the cache and the store
    were asked: no connection is recorded, the socket is mapped to nothing
    new and joins no group, the tiers are as before; the socket event
    handler turns the failure into one [error] message to that socket. *)
Theorem join_unknown_call (socketId callId : string)
  (userId : option string) (w : World) :
  redisUp w = true →
  pgUp w = true →
  tiers w !! callId = None →
  ∃ w' w'' msg,
    WebRTCHandler.handleJoinCall socketId callId userId w
      = (Throw (ErrCallNotFound callId), w') ∧
    rooms w' = rooms w ∧
    activeConnections w' = activeConnections w ∧
    socketToConnection w' = socketToConnection w ∧
    same_stores w w' ∧
    trace_since w w' = [RedisGet ("call:" +:+ callId); PgSelect callId] ∧
    serve (SockJoinCall socketId callId userId) w = (Ok tt, w'') ∧
    trace_since w w'' =
      [RedisGet ("call:" +:+ callId); PgSelect callId;
       SocketEmit socketId "error" msg].
Proof.
  intros Hup Hpg Hmiss. rewrite tiers_lookup in Hmiss.
  destruct (activeCalls w !! callId) as [c|] eqn:Hhot; [done|].
  destruct (redisCalls w !! callId) as [[c ttl]|] eqn:Hc; [done|].
  pose proof (getCall_miss callId (set_ticks S w) Hhot Hup Hc Hpg Hmiss)
    as Hget.
  assert (Hjoin : ∃ w',
    WebRTCHandler.handleJoinCall socketId callId userId w
      = (Throw (ErrCallNotFound callId), w') ∧
    rooms w' = rooms w ∧
    activeConnections w' = activeConnections w ∧
    socketToConnection w' = socketToConnection w ∧
    same_stores w w' ∧
    trace w' = trace w ++ [RedisGet ("call:" +:+ callId); PgSelect callId]).
  { unfold WebRTCHandler.handleJoinCall.
    unfold try_catch, bind at 1. unfold now at 1. unfold bind at 1.
    rewrite Hget. unfold_monad. simpl. eexists. by split_and!. }
  destruct Hjoin as (w' & Hrun & Hrooms & Hconns & Hmap & Hsame & Htrace).
  unfold serve, reporting, try_catch. rewrite Hrun. unfold_monad. simpl.
  eexists w', _, _. split_and!; try done.
  - by apply trace_since_app.
  - apply trace_since_app. simpl. rewrite Htrace.
    by rewrite <- app_assoc.
Qed.

Lemma join_unknown_call_witness :
  redisUp one_call = true ∧
  pgUp one_call = true ∧
  tiers one_call !! ghost = None ∧
  ∃ w',
    WebRTCHandler.handleJoinCall "s1" ghost None one_call
      = (Throw (ErrCallNotFound ghost), w') ∧
    rooms w' = rooms one_call ∧
    socketToConnection w' = socketToConnection one_call.
Proof.
  assert (Hup : redisUp one_call = true) by by_computation.
  assert (Hpg : pgUp one_call = true) by by_computation.
  assert (Hmiss : tiers one_call !! ghost = None) by by_computation.
  split; [exact Hup|]. split; [exact Hpg|]. split; [exact Hmiss|].
  destruct (join_unknown_call "s1" ghost None one_call Hup Hpg Hmiss)
    as (w' & _ & _ & Hrun & Hrooms & _ & Hmap & _).
  exists w'. split; [exact Hrun|]. split; [exact Hrooms | exact Hmap].
Defined.

(** X17.  [handleLeaveCall] undoes only the connection the socket is
    currently mapped to: it removes the socket from that connection's group,
    deletes that connection and the socket's mapping, and emits
    [connection:left] with the connection marked [disconnected] and its
    duration measured from [startTime].  Groups of other calls the socket
    is in keep it, and every other connection stays.  Afterwards the socket
    is unmapped, so a second leave does nothing and an offer from it throws
    the connection-not-found error. *)
Theorem leave_removes_only_current_connection (socketId cid : string)
  (connection : WebRTCConnection.t) (w : World) :
  socketToConnection w !! socketId = Some cid →
  activeConnections w !! cid = Some connection →
  ∃ w' left,
    WebRTCHandler.handleLeaveCall socketId w = (Ok tt, w') ∧
    rooms w' =
      rooms w ∖ {[ (WebRTCHandler.room_of
                      (WebRTCConnection.callId connection), socketId) ]} ∧
    activeConnections w' = delete cid (activeConnections w) ∧
    socketToConnection w' = delete socketId (socketToConnection w) ∧
    trace_since w w' =
      [Emit OfWebRTCHandler "connection:left" (PConnection left)] ∧
    WebRTCConnection.status left = disconnected ∧
    WebRTCConnection.duration left =
      Some (clock w (ticks w) - WebRTCConnection.startTime connection)%Z ∧
    (∀ callId sock,
       (callId, sock) ≠ (WebRTCConnection.callId connection, socketId) →
       WebRTCHandler.in_group callId sock w →
       WebRTCHandler.in_group callId sock w') ∧
    WebRTCHandler.handleLeaveCall socketId w' = (Ok tt, w') ∧
    ∀ callId sdp,
      WebRTCHandler.handleOffer socketId callId sdp w'
        = (Throw ErrConnectionNotFound, w').
Proof.
  intros Hmap Hconn.
  unfold WebRTCHandler.handleLeaveCall, WebRTCHandler.handleOffer,
    WebRTCHandler.lookup_connection, WebRTCHandler.in_group.
  unfold_monad. rewrite Hmap. simpl. rewrite Hconn. simpl.
  eexists _, _. split; [reflexivity|]. simpl. rewrite lookup_delete_eq.
  split_and!; try done.
  - by apply trace_since_app.
  - done.
  - done.
  - intros callId sock Hne Hin.
    apply elem_of_difference. split; [done|].
    intros Heq%elem_of_singleton. apply Hne.
    pose proof (f_equal fst Heq) as Hroom.
    pose proof (f_equal snd Heq) as Hsock.
    cbn [fst snd] in Hroom, Hsock.
    apply room_of_inj in Hroom. congruence.
Qed.

(** X17 at socket ["s1"], which joined ["c1"] and then ["c2"]: leaving
    takes it out of the group of ["c2"] only. *)
Lemma leave_removes_only_current_connection_witness :
  socketToConnection joined_twice !! "s1" = Some "c2-s1" ∧
  is_Some (activeConnections joined_twice !! "c2-s1") ∧
  ∃ w',
    WebRTCHandler.handleLeaveCall "s1" joined_twice = (Ok tt, w') ∧
    WebRTCHandler.in_group "c1" "s1" w' ∧
    ¬ WebRTCHandler.in_group "c2" "s1" w' ∧
    is_Some (activeConnections w' !! "c1-s1") ∧
    socketToConnection w' !! "s1" = None.
Proof.
  assert (Hmap : socketToConnection joined_twice !! "s1" = Some "c2-s1")
    by by_computation.
  split; [exact Hmap|].
  destruct (activeConnections joined_twice !! "c2-s1") as [c|] eqn:Hc;
    [|vm_compute in Hc; discriminate Hc].
  split; [by exists c|].
  destruct (leave_removes_only_current_connection "s1" "c2-s1" c joined_twice
              Hmap Hc)
    as (w' & left & Hrun & Hrooms & Hconns & Hunmap & _ & _ & _ & Hkeep & _).
  exists w'. split; [exact Hrun|].
  assert (Hcall : WebRTCConnection.callId c = "c2").
  { vm_compute in Hc. by injection Hc as <-. }
  split.
  { apply Hkeep.
    - rewrite Hcall. discriminate.
    - unfold WebRTCHandler.in_group. apply (bool_decide_unpack _).
      vm_compute. exact I. }
  split.
  { unfold WebRTCHandler.in_group. rewrite Hrooms, Hcall.
    intros [_ Hn]%elem_of_difference. apply Hn. by apply elem_of_singleton. }
  split.
  { rewrite Hconns, lookup_delete_ne by discriminate.
    vm_compute. eexists. reflexivity. }
  rewrite Hunmap. apply lookup_delete_eq.
Defined.

(** X18.  For a socket that is mapped to no connection and is not in the
    call's group, joining an existing call and then leaving puts the
    signaling state back: groups, connections and the socket mapping are
    what they were before the join, the store is untouched, and the
    connection handed to [connection:left] lasted from the join's
    [startTime] to the leave's clock reading. *)
Theorem join_then_leave_restores (socketId callId : string)
  (userId : option string) (w : World) (row : Call.t) :
  redisUp w = true →
  pgUp w = true →
  calls_table w !! callId = Some row →
  socketToConnection w !! socketId = None →
  activeConnections w
    !! WebRTCHandler.connection_id callId socketId = None →
  ¬ WebRTCHandler.in_group callId socketId w →
  ∃ w1 w2 left,
    WebRTCHandler.handleJoinCall socketId callId userId w = (Ok tt, w1) ∧
    WebRTCHandler.in_group callId socketId w1 ∧
    WebRTCHandler.handleLeaveCall socketId w1 = (Ok tt, w2) ∧
    rooms w2 = rooms w ∧
    activeConnections w2 = activeConnections w ∧
    socketToConnection w2 = socketToConnection w ∧
    calls_table w2 = calls_table w ∧
    last (trace w2)
      = Some (Emit OfWebRTCHandler "connection:left" (PConnection left)) ∧
    WebRTCConnection.callId left = callId ∧
    WebRTCConnection.socketId left = socketId ∧
    WebRTCConnection.startTime left = clock w (S (ticks w)) ∧
    WebRTCConnection.endTime left = Some (clock w (S (S (S (ticks w))))).
Proof.
  intros Hup Hpg Hdb Hunmapped Hnoconn Hout.
  destruct (getCall_resolves callId row (set_ticks S w) Hup Hpg Hdb)
    as (call & w1 & Hget & _ & Hw1).
  unfold WebRTCHandler.handleJoinCall, WebRTCHandler.handleLeaveCall,
    WebRTCHandler.in_group in *.
  unfold try_catch, bind at 1. unfold now at 1. unfold bind at 1.
  rewrite Hget.
  destruct Hw1 as [[-> Hhot] | [-> | ->]]; unfold_monad; simpl;
    eexists _, _, _; (split; [reflexivity|]); simpl;
    rewrite !lookup_insert_eq; simpl; rewrite !lookup_insert_eq; simpl;
    (split; [set_solver|]); (split; [reflexivity|]); simpl;
    rewrite insert_insert_eq, !delete_insert_eq, !delete_id by done;
    rewrite ?last_snoc;
    (split_and!; try done; set_solver).
Qed.

Lemma join_then_leave_restores_witness :
  redisUp two_calls = true ∧
  pgUp two_calls = true ∧
  is_Some (calls_table two_calls !! "c1") ∧
  socketToConnection two_calls !! "s1" = None ∧
  activeConnections two_calls
    !! WebRTCHandler.connection_id "c1" "s1" = None ∧
  ¬ WebRTCHandler.in_group "c1" "s1" two_calls ∧
  ∃ w1 w2,
    WebRTCHandler.handleJoinCall "s1" "c1" None two_calls = (Ok tt, w1) ∧
    WebRTCHandler.handleLeaveCall "s1" w1 = (Ok tt, w2) ∧
    rooms w2 = rooms two_calls ∧
    activeConnections w2 = activeConnections two_calls.
Proof.
  assert (Hup : redisUp two_calls = true) by by_computation.
  assert (Hpg : pgUp two_calls = true) by by_computation.
  assert (Hmap : socketToConnection two_calls !! "s1" = None)
    by by_computation.
  assert (Hconn : activeConnections two_calls
            !! WebRTCHandler.connection_id "c1" "s1" = None)
    by by_computation.
  assert (Hout : ¬ WebRTCHandler.in_group "c1" "s1" two_calls).
  { unfold WebRTCHandler.in_group. apply (bool_decide_unpack _).
    vm_compute. exact I. }
  split; [exact Hup|]. split; [exact Hpg|].
  destruct (calls_table two_calls !! "c1") as [row|] eqn:Hrow;
    [|vm_compute in Hrow; discriminate Hrow].
  split; [by exists row|].
  split; [exact Hmap|]. split; [exact Hconn|]. split; [exact Hout|].
  destruct (join_then_leave_restores "s1" "c1" None two_calls row
              Hup Hpg Hrow Hmap Hconn Hout)
    as (w1 & w2 & left & Hjoin & _ & Hleave & Hrooms & Hconns & _).
  exists w1, w2. split; [exact Hjoin|]. split; [exact Hleave|].
  split; [exact Hrooms | exact Hconns].
Defined.

(* ================================================================== *)
(** * SIPService: session progress and incoming calls                   *)
(* ================================================================== *)

(** What [updateCallStatus] does to a call that has a row in the store. *)
Lemma updateCallStatus_run (callId : string) (status : CallStatus)
  (w : World) (row : Call.t) :
  redisUp w = true →
  pgUp w = true →
  calls_table w !! callId = Some row →
  ∃ call w' pre,
    tiers w !! callId = Some call ∧
    let updated := CallManager.with_status status (clock w (ticks w)) call in
    CallManager.updateCallStatus callId status w = (Ok (Some updated), w') ∧
    activeCalls w' = <[callId := updated]> (activeCalls w) ∧
    redisCalls w' = <[callId := (updated, 3600%Z)]> (redisCalls w) ∧
    calls_table w' =
      <[callId := DatabaseService.apply_updates
                    (CallManager.only_status status)
                    (clock w (S (ticks w))) row]> (calls_table w) ∧
    trace w' =
      trace w ++ pre ++
      [PgUpdate callId (CallManager.only_status status);
       RedisSet ("call:" +:+ callId) 3600;
       Emit OfCallManager "call:statusUpdated"
            (PStatusUpdate updated (Call.status call) status)] ∧
    sip_activeCalls w' = sip_activeCalls w.
Proof.
  intros Hup Hpg Hdb.
  destruct (getCall_resolves _ _ _ Hup Hpg Hdb)
    as (call & w1 & Hget & Ht & Hw1).
  exists call. unfold CallManager.updateCallStatus.
  unfold bind at 1. rewrite Hget.
  destruct Hw1 as [[-> Hhot] | [-> | ->]]; unfold_monad;
    run_with Hup Hpg Hdb.
  - eexists _, []. split_and!; try done; simpl;
      rewrite ?insert_insert_eq; try done. by rewrite <- ?app_assoc.
  - eexists _, [_]. split_and!; try done; simpl;
      rewrite ?insert_insert_eq; try done. by rewrite <- ?app_assoc.
  - eexists _, [_; _; _]. split_and!; try done; simpl;
      rewrite ?insert_insert_eq; try done. by rewrite <- ?app_assoc.
Qed.

(** X19.  For a tracked session whose call has a row in the store, with
    cache and store serving, the states [Establishing] and [Established]
    make the listener mark the handle [ringing], respectively [answered],
    keep it in the handle map, bring the call to the status of the same
    name in the store, the cache and the hot set, and emit [call:ringing],
    respectively [call:answered], with the handle. *)
Theorem session_progress_updates_call (sessionId callId : string)
  (newState : SessionState) (sipStatus : SIPStatus) (status : CallStatus)
  (event : string) (w : World) (sipCall : SIPCall.t) (row : Call.t) :
  (newState, sipStatus, status, event)
    ∈ [(Establishing, sip_ringing, ringing, "call:ringing");
       (Established, sip_answered, answered, "call:answered")] →
  redisUp w = true →
  pgUp w = true →
  sip_activeCalls w !! sessionId = Some sipCall →
  calls_table w !! callId = Some row →
  ∃ w' stored hot,
    SIPService.stateChange_listener sessionId callId newState w
      = (Ok tt, w') ∧
    sip_activeCalls w' =
      <[sessionId := SIPService.with_status sipStatus sipCall]>
        (sip_activeCalls w) ∧
    calls_table w' !! callId = Some stored ∧
    Call.status stored = status ∧
    activeCalls w' !! callId = Some hot ∧
    redisCalls w' !! callId = Some (hot, 3600%Z) ∧
    Call.status hot = status ∧
    Emit OfSIPService event
         (PSipCall (SIPService.with_status sipStatus sipCall))
      ∈ trace_since w w'.
Proof.
  intros Hcase Hup Hpg Hsip Hdb.
  assert (Hlisten :
    SIPService.stateChange_listener sessionId callId newState w
      = (Ok tt,
         set_trace
           (λ t, t ++ [Emit OfSIPService event
                         (PSipCall (SIPService.with_status sipStatus
                                      sipCall))])
           (snd (CallManager.updateCallStatus callId status
                   (set_sip_activeCalls
                      <[sessionId := SIPService.with_status sipStatus
                                       sipCall]> w))))).
  { apply elem_of_cons in Hcase as [Hcase | Hcase%list_elem_of_singleton];
      simplify_eq;
      unfold SIPService.stateChange_listener; unfold_monad;
      simpl; by rewrite Hsip. }
  clear Hcase.
  set (w2 := set_sip_activeCalls
               <[sessionId := SIPService.with_status sipStatus sipCall]> w)
    in *.
  destruct (updateCallStatus_run callId status w2 row Hup Hpg Hdb)
    as (call & w3 & pre & Ht & Hrun & Hhot & Hcache & Hstore & Htr & Hs).
  rewrite Hlisten, Hrun. eexists _, _, _. split; [reflexivity|]. simpl.
  rewrite Hs, Hstore, Hhot, Hcache, !lookup_insert_eq.
  split_and!; try done.
  erewrite trace_since_app; last first.
  { simpl. rewrite Htr. simpl. rewrite <- !app_assoc. reflexivity. }
  rewrite !elem_of_app. right. right. set_solver.
Qed.

(** X19 at the invitation ["H1"], whose call is ["c1"]: [Established]. *)
Lemma session_progress_updates_call_witness :
  redisUp invited = true ∧
  pgUp invited = true ∧
  is_Some (sip_activeCalls invited !! "H1") ∧
  (Call.status <$> calls_table invited !! "c1") = Some initiated ∧
  ∃ w' stored,
    SIPService.stateChange_listener "H1" "c1" Established invited
      = (Ok tt, w') ∧
    calls_table w' !! "c1" = Some stored ∧
    Call.status stored = answered ∧
    (SIPCall.status <$> sip_activeCalls w' !! "H1") = Some sip_answered.
Proof.
  assert (Hup : redisUp invited = true) by by_computation.
  assert (Hpg : pgUp invited = true) by by_computation.
  split; [exact Hup|]. split; [exact Hpg|].
  destruct (sip_activeCalls invited !! "H1") as [sipCall|] eqn:Hsip;
    [|vm_compute in Hsip; discriminate Hsip].
  split; [by exists sipCall|].
  destruct (calls_table invited !! "c1") as [row|] eqn:Hrow;
    [|vm_compute in Hrow; discriminate Hrow].
  split.
  { vm_compute in Hrow. injection Hrow as <-. reflexivity. }
  destruct (session_progress_updates_call "H1" "c1" Established sip_answered
              answered "call:answered" invited sipCall row
              ltac:(apply list_elem_of_further, list_elem_of_here)
              Hup Hpg Hsip Hrow)
    as (w' & stored & hot & Hrun & Hhandles & Hstored & Hst & _).
  exists w', stored. split; [exact Hrun|]. split; [exact Hstored|].
  split; [exact Hst|]. rewrite Hhandles, lookup_insert_eq. reflexivity.
Defined.

Lemma getCall_keeps_handles (callId : string) (w : World) :
  sip_activeCalls (snd (CallManager.getCall callId w)) = sip_activeCalls w.
Proof.
  unfold CallManager.getCall. unfold_monad.
  destruct (activeCalls w !! callId); [done|]. simpl.
  destruct (redisUp w); [|done]. simpl.
  destruct (redisCalls w !! callId) as [[c ttl]|]; [done|]. simpl.
  destruct (pgUp w); [|done]. simpl.
  destruct (calls_table w !! callId); [|done]. simpl.
  by destruct (redisUp w).
Qed.

Lemma endCall_keeps_handles (callId : string) (endData : PartialCall.t)
  (w : World) :
  sip_activeCalls (snd (CallManager.endCall callId endData w))
    = sip_activeCalls w.
Proof.
  pose proof (getCall_keeps_handles callId w) as Hget.
  unfold CallManager.endCall. unfold bind at 1.
  destruct (CallManager.getCall callId w) as [[[call|]|e] w1];
    simpl in Hget; [|done..].
  unfold_monad. simpl.
  destruct (pgUp w1); [|done]. simpl.
  destruct (calls_table w1 !! callId); [|done]. simpl.
  by destruct (redisUp w1).
Qed.

(** X20.  The listener never throws, whatever the state and whatever
    becomes of the [CallManager] request it starts; and once [Terminated]
    was reported the session is not tracked any more, so every later state
    change of that session is ignored: nothing is written and nothing is
    emitted. *)
Theorem terminated_session_is_forgotten (sessionId callId : string)
  (w : World) :
  (∀ newState,
     fst (SIPService.stateChange_listener sessionId callId newState w)
       = Ok tt) ∧
  let w' := snd (SIPService.stateChange_listener sessionId callId
                   Terminated w) in
  sip_activeCalls w' !! sessionId = None ∧
  ∀ laterCallId newState,
    SIPService.stateChange_listener sessionId laterCallId newState w'
      = (Ok tt, w').
Proof.
  split.
  { intros newState. unfold SIPService.stateChange_listener. unfold_monad.
    destruct (sip_activeCalls w !! sessionId); [|done].
    by destruct newState. }
  assert (Hgone : sip_activeCalls
            (snd (SIPService.stateChange_listener sessionId callId
                    Terminated w)) !! sessionId = None).
  { unfold SIPService.stateChange_listener. unfold_monad.
    destruct (sip_activeCalls w !! sessionId) as [sipCall|] eqn:Hsip;
      [|done].
    simpl. rewrite endCall_keeps_handles. simpl.
    apply lookup_delete_eq. }
  simpl. split; [exact Hgone|].
  intros laterCallId newState.
  unfold SIPService.stateChange_listener at 1. unfold_monad.
  by rewrite Hgone.
Qed.

Lemma createCall_keeps_handles (draft : PartialCall.t) (w : World) :
  sip_activeCalls (snd (CallManager.createCall draft w)) = sip_activeCalls w.
Proof.
  unfold CallManager.createCall. unfold_monad. simpl.
  destruct (CallManager.build_call _ _ _ draft); [|done]. simpl.
  destruct (pgUp w); [|done]. simpl.
  destruct (calls_table w !! _); [done|]. simpl.
  by destruct (redisUp w).
Qed.

(** X21.  [handleIncomingCall] never throws and always leaves the
    invitation tracked as an [initiated] handle, whether or not the call
    could be created.  The call is created, under the generated identifier
    and with the caller's address as phone number, exactly when the store
    serves, the identifier is new and the cache serves; otherwise nothing
    is added to the hot set and no [call:incoming] is emitted, yet the
    handle stays in the handle map. *)
Theorem incoming_call_outcome (sessionId : string)
  (remote local : option string) (w : World) :
  let sipCall :=
    SIPCall.mk sessionId incoming (SIPService.or_unknown remote)
               (SIPService.or_unknown local) sip_initiated
               (clock w (S (ticks w))) None None in
  let uuid := uuids w (uuidCount w) in
  let served :=
    pgUp w = true ∧ calls_table w !! uuid = None ∧ redisUp w = true in
  ∃ r w',
    SIPService.handleIncomingCall sessionId remote local w = (Ok r, w') ∧
    sip_activeCalls w' = <[sessionId := sipCall]> (sip_activeCalls w) ∧
    (served →
     r = Some uuid ∧
     ∃ call,
       activeCalls w' !! uuid = Some call ∧
       calls_table w' !! uuid = Some call ∧
       Call.phoneNumber call = SIPService.or_unknown remote ∧
       Call.direction call = incoming ∧
       Call.status call = initiated ∧
       Emit OfSIPService "call:incoming" (PCallSipCall call sipCall)
         ∈ trace_since w w') ∧
    (¬ served →
     r = None ∧
     activeCalls w' = activeCalls w ∧
     redisCalls w' = redisCalls w ∧
     ∀ payload,
       Emit OfSIPService "call:incoming" payload ∉ trace_since w w').
Proof.
  intros sipCall uuid served.
  unfold SIPService.handleIncomingCall, CallManager.createCall,
    CallManager.build_call, SIPService.draft.
  unfold_monad. simpl. fold uuid. fold sipCall.
  destruct (pgUp w) eqn:Hpg; simpl.
  2: { eexists _, _. split; [reflexivity|]. simpl. split; [done|].
       split; [intros (? & _); done|]. intros _. split_and!; try done.
       intros payload. erewrite trace_since_app; [|simpl; reflexivity].
       set_solver. }
  destruct (calls_table w !! uuid) eqn:Hdb; simpl.
  { eexists _, _. split; [reflexivity|]. simpl. split; [done|].
    split; [intros (_ & ? & _); done|]. intros _. split_and!; try done.
    intros payload. erewrite trace_since_app; [|simpl; reflexivity].
    set_solver. }
  destruct (redisUp w) eqn:Hup; simpl.
  2: { eexists _, _. split; [reflexivity|]. simpl. split; [done|].
       split; [intros (_ & _ & ?); done|]. intros _. split_and!; try done.
       intros payload. erewrite trace_since_app; last first.
       { simpl. rewrite <- !app_assoc. reflexivity. }
       set_solver. }
  eexists _, _. split; [reflexivity|]. simpl. split; [done|].
  split; [|intros Hn; destruct Hn; done].
  intros _. split; [done|]. eexists. rewrite !lookup_insert_eq.
  split_and!; try done.
  erewrite trace_since_app; last first.
  { simpl. rewrite <- !app_assoc. reflexivity. }
  set_solver.
Qed.

(* ================================================================== *)
(** * The status of a response                                          *)
(* ================================================================== *)

(** X24.  For an identifier none of the tiers holds (cache and store
    serving) and a request the validators of the route accept,
    [GET /:id] responds 404, while [PATCH /:id/status] (body with a status)
    and [POST /:id/end] respond 500: the call-not-found error they meet is a
    plain [Error], which [errorHandler] answers with its default status.  A
    request a validator rejects is answered 400 on each of the three routes,
    and [CallManager] is not called: the world is unchanged. *)
Theorem unknown_call_http_status (callId : string) (status : CallStatus)
  (body : PartialCall.t) (w : World) :
  redisUp w = true →
  pgUp w = true →
  tiers w !! callId = None →
  fst (Http.get_call_route true callId w) = Ok (Some 404%Z) ∧
  fst (Http.update_status_route true true callId status w)
    = Ok (Some 500%Z) ∧
  fst (Http.end_call_route true true callId body w) = Ok (Some 500%Z) ∧
  Http.get_call_route false callId w = (Ok (Some 400%Z), w) ∧
  ∀ idOk bodyOk,
    idOk && bodyOk = false →
    Http.update_status_route idOk bodyOk callId status w
      = (Ok (Some 400%Z), w) ∧
    Http.end_call_route idOk bodyOk callId body w = (Ok (Some 400%Z), w).
Proof.
  intros Hup Hpg Hmiss. rewrite tiers_lookup in Hmiss.
  destruct (activeCalls w !! callId) as [c|] eqn:Hhot; [done|].
  destruct (redisCalls w !! callId) as [[c ttl]|] eqn:Hc; [done|].
  pose proof (getCall_miss callId w Hhot Hup Hc Hpg Hmiss) as Hget.
  unfold Http.get_call_route, Http.update_status_route,
    Http.end_call_route, Http.route. cbn [andb].
  split_and!.
  - unfold try_catch, bind. by rewrite Hget.
  - unfold CallManager.updateCallStatus, try_catch, bind. by rewrite Hget.
  - unfold CallManager.endCall, try_catch, bind. by rewrite Hget.
  - done.
  - intros idOk bodyOk ->. done.
Qed.

Lemma unknown_call_http_status_witness :
  redisUp one_call = true ∧
  pgUp one_call = true ∧
  tiers one_call !! ghost = None ∧
  fst (Http.get_call_route true ghost one_call) = Ok (Some 404%Z) ∧
  fst (Http.update_status_route true true ghost answered one_call)
    = Ok (Some 500%Z) ∧
  fst (Http.end_call_route true true ghost (end_body 42) one_call)
    = Ok (Some 500%Z) ∧
  Http.end_call_route true false ghost PartialCall.empty one_call
    = (Ok (Some 400%Z), one_call).
Proof.
  assert (Hup : redisUp one_call = true) by by_computation.
  assert (Hpg : pgUp one_call = true) by by_computation.
  assert (Hmiss : tiers one_call !! ghost = None) by by_computation.
  split; [exact Hup|]. split; [exact Hpg|]. split; [exact Hmiss|].
  destruct (unknown_call_http_status ghost answered (end_body 42) one_call
              Hup Hpg Hmiss) as (Hget & Hpatch & Hend & _ & _).
  split; [exact Hget|]. split; [exact Hpatch|]. split; [exact Hend|].
  apply (unknown_call_http_status ghost answered PartialCall.empty one_call
           Hup Hpg Hmiss). reflexivity.
Defined.
